(** * Physics core of game-root: collision, gravity and motion

    A shallow embedding of [src/physics/engine/collision.py],
    [src/physics/engine/gravity.py] and [src/physics/engine/motion.py].

    Numbers.  The Python code computes with IEEE doubles (Python floats and
    numpy arrays of three floats).  They are embedded as real numbers: the
    development states what the formulas compute in exact arithmetic, which
    is what the specification's "within epsilon" properties idealise.  A
    division whose divisor the code guards (or that a theorem's hypotheses
    keep away from zero) is real division.  Where the code divides a numpy
    array by a norm that can be zero with no guard (gravity.py), the result
    is embedded explicitly as a non-finite vector ([NonFinite]). *)

From Stdlib Require Import Reals Lra Lia List String ZArith Bool.
Import ListNotations.
Open Scope string_scope.
Open Scope list_scope.

Open Scope R_scope.

(** ** Comparisons of floats, as booleans *)

Definition Rltb (a b : R) : bool := if Rlt_dec a b then true else false.
Definition Rleb (a b : R) : bool := if Rle_dec a b then true else false.
Definition Reqb (a b : R) : bool := if Req_dec_T a b then true else false.

(** ** Three-component numpy arrays *)

Module Vec.

Record V3 : Type := mkV3 { vx : R; vy : R; vz : R }.

Definition vzero : V3 := mkV3 0 0 0.
Definition vadd (a b : V3) : V3 := mkV3 (vx a + vx b) (vy a + vy b) (vz a + vz b).
Definition vsub (a b : V3) : V3 := mkV3 (vx a - vx b) (vy a - vy b) (vz a - vz b).
Definition vmul (a b : V3) : V3 := mkV3 (vx a * vx b) (vy a * vy b) (vz a * vz b).
Definition vneg (a : V3) : V3 := mkV3 (- vx a) (- vy a) (- vz a).
(** [a * s] and [a / s] for a scalar [s] *)
Definition vscale (a : V3) (s : R) : V3 := mkV3 (vx a * s) (vy a * s) (vz a * s).
Definition vdiv (a : V3) (s : R) : V3 := mkV3 (vx a / s) (vy a / s) (vz a / s).
(** [np.sum], [np.dot], [np.cross], [np.linalg.norm] *)
Definition vsum (a : V3) : R := vx a + vy a + vz a.
Definition dot (a b : V3) : R := vx a * vx b + vy a * vy b + vz a * vz b.
Definition cross (a b : V3) : V3 :=
  mkV3 (vy a * vz b - vz a * vy b) (vz a * vx b - vx a * vz b) (vx a * vy b - vy a * vx b).
Definition norm (a : V3) : R := sqrt (dot a a).
(** indexing [a[i]] for [i] in [range(3)] *)
Definition vget (a : V3) (i : nat) : R :=
  match i with O => vx a | S O => vy a | _ => vz a end.

(** numpy's division of an array by a scalar does not raise when the scalar
    is zero: every component becomes [nan] or [inf]. *)
Inductive npvec : Type := Finite (v : V3) | NonFinite.

Definition np_div (a : V3) (s : R) : npvec :=
  if Req_dec_T s 0 then NonFinite else Finite (vdiv a s).

(** [a[i] = x] on an array of three components *)
Definition vset (a : V3) (i : nat) (x : R) : V3 :=
  match i with
  | O => mkV3 x (vy a) (vz a)
  | S O => mkV3 (vx a) x (vz a)
  | _ => mkV3 (vx a) (vy a) x
  end.

(** [n] is a positive multiple of the displacement from [p] to [q]. *)
Definition points_from_to (n p q : V3) : Prop :=
  exists k, 0 < k /\ n = vscale (vsub q p) k.

End Vec.
Import Vec.

(** ** collision.py *)

Module Collision.

(** *** CollisionDetector *)

(** [check_sphere_sphere]: the pair returned is [(hit, normal)], the normal
    being [None] exactly when the Python function returns [None]. *)
Definition check_sphere_sphere (pos1 : V3) (radius1 : R) (pos2 : V3) (radius2 : R)
  : bool * option V3 :=
  let direction := vsub pos2 pos1 in
  let distance_squared := vsum (vmul direction direction) in
  let min_distance := radius1 + radius2 in
  if Rltb distance_squared (min_distance * min_distance) then
    if Rltb 0.0001 distance_squared then
      let normal := vdiv direction (sqrt distance_squared) in
      (true, Some normal)
    else
      (true, Some (mkV3 0 1 0))
  else (false, None).

(** [min(l)] and [l.index(x)] on a non-empty Python list of floats: the
    minimum, and the position of the first element equal to [x]. *)
Fixpoint list_min (d : R) (l : list R) : R :=
  match l with
  | [] => d
  | x :: t => list_min (if Rltb x d then x else d) t
  end.

Fixpoint list_index (x : R) (l : list R) : nat :=
  match l with
  | [] => O
  | y :: t => if Reqb y x then O else S (list_index x t)
  end.

Definition check_sphere_box (sphere_pos : V3) (sphere_radius : R)
  (box_pos box_half_size : V3) : bool * option V3 :=
  let closest_point := mkV3
    (Rmax (vx box_pos - vx box_half_size) (Rmin (vx sphere_pos) (vx box_pos + vx box_half_size)))
    (Rmax (vy box_pos - vy box_half_size) (Rmin (vy sphere_pos) (vy box_pos + vy box_half_size)))
    (Rmax (vz box_pos - vz box_half_size) (Rmin (vz sphere_pos) (vz box_pos + vz box_half_size))) in
  let direction := vsub sphere_pos closest_point in
  let distance_squared := vsum (vmul direction direction) in
  if Rltb distance_squared (sphere_radius * sphere_radius) then
    if Rltb 0.0001 distance_squared then
      let normal := vdiv direction (sqrt distance_squared) in
      (true, Some normal)
    else
      let distances :=
        [ Rabs (vx sphere_pos - (vx box_pos - vx box_half_size));
          Rabs (vx sphere_pos - (vx box_pos + vx box_half_size));
          Rabs (vy sphere_pos - (vy box_pos - vy box_half_size));
          Rabs (vy sphere_pos - (vy box_pos + vy box_half_size));
          Rabs (vz sphere_pos - (vz box_pos - vz box_half_size));
          Rabs (vz sphere_pos - (vz box_pos + vz box_half_size)) ] in
      let min_index := list_index (list_min (hd 0 distances) distances) distances in
      let normals :=
        [ mkV3 (-1) 0 0; mkV3 1 0 0; mkV3 0 (-1) 0; mkV3 0 1 0; mkV3 0 0 (-1); mkV3 0 0 1 ] in
      (true, Some (nth min_index normals vzero))
  else (false, None).

Definition check_box_box (pos1 half_size1 pos2 half_size2 : V3) : bool * option V3 :=
  let x_overlap := Rleb (vx pos2 - vx half_size2) (vx pos1 + vx half_size1)
                   && Rleb (vx pos1 - vx half_size1) (vx pos2 + vx half_size2) in
  let y_overlap := Rleb (vy pos2 - vy half_size2) (vy pos1 + vy half_size1)
                   && Rleb (vy pos1 - vy half_size1) (vy pos2 + vy half_size2) in
  let z_overlap := Rleb (vz pos2 - vz half_size2) (vz pos1 + vz half_size1)
                   && Rleb (vz pos1 - vz half_size1) (vz pos2 + vz half_size2) in
  if x_overlap && y_overlap && z_overlap then
    let x_depth := Rmin (vx pos1 + vx half_size1 - (vx pos2 - vx half_size2))
                        (vx pos2 + vx half_size2 - (vx pos1 - vx half_size1)) in
    let y_depth := Rmin (vy pos1 + vy half_size1 - (vy pos2 - vy half_size2))
                        (vy pos2 + vy half_size2 - (vy pos1 - vy half_size1)) in
    let z_depth := Rmin (vz pos1 + vz half_size1 - (vz pos2 - vz half_size2))
                        (vz pos2 + vz half_size2 - (vz pos1 - vz half_size1)) in
    let normal :=
      if Rleb x_depth y_depth && Rleb x_depth z_depth then
        if Rltb (vx pos1) (vx pos2) then mkV3 1 0 0 else mkV3 (-1) 0 0
      else if Rleb y_depth x_depth && Rleb y_depth z_depth then
        if Rltb (vy pos1) (vy pos2) then mkV3 0 1 0 else mkV3 0 (-1) 0
      else
        if Rltb (vz pos1) (vz pos2) then mkV3 0 0 1 else mkV3 0 0 (-1) in
    (true, Some normal)
  else (false, None).

(** **** ray_cast *)

(** A candidate object of [ray_cast]: a dict with a ['type'] and the
    parameters of that type.  [RayOther] is a dict whose ['type'] is neither
    ['sphere'] nor ['box']: the loop body does nothing for it. *)
Inductive RayObject : Type :=
  | RaySphere (position : V3) (radius : R)
  | RayBox (position half_size : V3)
  | RayOther.

(** The dict returned for a hit. *)
Record HitInfo : Type := mkHit
  { hit_object : RayObject; hit_distance : R; hit_point : V3; hit_normal : V3 }.

(** [t_min] and [t_max] of the slab method start at [-inf] and [+inf]. *)
Inductive ExtR : Type := NegInf | Fin (r : R) | PosInf.

Definition ext_ltb (a b : ExtR) : bool :=
  match a, b with
  | NegInf, NegInf => false
  | NegInf, _ => true
  | Fin _, NegInf => false
  | Fin x, Fin y => Rltb x y
  | Fin _, PosInf => true
  | PosInf, _ => false
  end.

(** Python's [min(a, b)] *)
Definition ext_min (a b : ExtR) : ExtR := if ext_ltb b a then b else a.

Record Slab : Type := mkSlab
  { t_min : ExtR; t_max : ExtR; hit_normal_axis : nat; hit_normal_sign : R }.

(** One turn of [for i in range(3)]; [None] is [break]. *)
Definition slab_axis (ray_origin ray_direction min_bounds max_bounds : V3)
  (s : Slab) (i : nat) : option Slab :=
  if Rltb (Rabs (vget ray_direction i)) 1e-6 then
    if Rltb (vget ray_origin i) (vget min_bounds i)
       || Rltb (vget max_bounds i) (vget ray_origin i)
    then None else Some s
  else
    let t1 := (vget min_bounds i - vget ray_origin i) / vget ray_direction i in
    let t2 := (vget max_bounds i - vget ray_origin i) / vget ray_direction i in
    let '(t1, t2, sign) := if Rltb t2 t1 then (t2, t1, -1) else (t1, t2, 1) in
    let s1 := if ext_ltb (t_min s) (Fin t1)
              then mkSlab (Fin t1) (t_max s) i (- sign) else s in
    let s2 := mkSlab (t_min s1) (ext_min (t_max s1) (Fin t2))
                     (hit_normal_axis s1) (hit_normal_sign s1) in
    if ext_ltb (t_max s2) (t_min s2) then None else Some s2.

Fixpoint slab_loop (ray_origin ray_direction min_bounds max_bounds : V3)
  (s : Slab) (axes : list nat) : option Slab :=
  match axes with
  | [] => Some s
  | i :: rest =>
      match slab_axis ray_origin ray_direction min_bounds max_bounds s i with
      | None => None
      | Some s' => slab_loop ray_origin ray_direction min_bounds max_bounds s' rest
      end
  end.

(** The part of the loop body that sets [hit], [hit_distance] and
    [hit_normal] for one object, given the current [closest_distance]:
    [Some (hit_distance, hit_normal)] when [hit] is set. *)
Definition object_hit (ray_origin ray_direction : V3) (closest_distance : R)
  (obj : RayObject) : option (R * V3) :=
  match obj with
  | RaySphere sphere_pos sphere_radius =>
      let offset := vsub sphere_pos ray_origin in
      let projected_distance := dot offset ray_direction in
      if Rltb projected_distance 0 then None
      else
        let closest_point := vadd ray_origin (vscale ray_direction projected_distance) in
        let d := vsub closest_point sphere_pos in
        let closest_point_dist_squared := vsum (vmul d d) in
        if Rltb (sphere_radius * sphere_radius) closest_point_dist_squared then None
        else
          let half_chord := sqrt (sphere_radius * sphere_radius - closest_point_dist_squared) in
          let hit_distance := projected_distance - half_chord in
          if Rltb hit_distance closest_distance then
            let hit_point := vadd ray_origin (vscale ray_direction hit_distance) in
            Some (hit_distance, vdiv (vsub hit_point sphere_pos) sphere_radius)
          else None
  | RayBox box_pos box_half_size =>
      let min_bounds := vsub box_pos box_half_size in
      let max_bounds := vadd box_pos box_half_size in
      match slab_loop ray_origin ray_direction min_bounds max_bounds
              (mkSlab NegInf PosInf 0%nat 1) [0%nat; 1%nat; 2%nat] with
      | None => None
      | Some s =>
          let hit_distance := if ext_ltb (Fin 0) (t_min s) then t_min s else t_max s in
          match hit_distance with
          | Fin hd =>
              if Rltb 0 hd && Rltb hd closest_distance then
                Some (hd, vset vzero (hit_normal_axis s) (hit_normal_sign s))
              else None
          | NegInf | PosInf => None
          end
      end
  | RayOther => None
  end.

(** The loop body: [closest_hit] and [closest_distance] after one object. *)
Definition ray_step (ray_origin ray_direction : V3)
  (st : option HitInfo * R) (obj : RayObject) : option HitInfo * R :=
  let '(closest_hit, closest_distance) := st in
  match object_hit ray_origin ray_direction closest_distance obj with
  | Some (hit_distance, hit_normal) =>
      if Rltb hit_distance closest_distance then
        let hit_point := vadd ray_origin (vscale ray_direction hit_distance) in
        (Some (mkHit obj hit_distance hit_point hit_normal), hit_distance)
      else st
  | None => st
  end.

Definition ray_cast (ray_origin ray_direction : V3) (max_distance : R)
  (objects : list RayObject) : bool * option HitInfo :=
  let closest_hit := fst (fold_left (ray_step ray_origin ray_direction) objects
                                    (None, max_distance)) in
  (match closest_hit with Some _ => true | None => false end, closest_hit).

(** The geometric part of [object_hit]: what the loop body computes for one
    object before it compares [hit_distance] with [closest_distance]. *)
Definition raw_hit (ray_origin ray_direction : V3) (obj : RayObject) : option (R * V3) :=
  match obj with
  | RaySphere sphere_pos sphere_radius =>
      let offset := vsub sphere_pos ray_origin in
      let projected_distance := dot offset ray_direction in
      if Rltb projected_distance 0 then None
      else
        let closest_point := vadd ray_origin (vscale ray_direction projected_distance) in
        let d := vsub closest_point sphere_pos in
        let closest_point_dist_squared := vsum (vmul d d) in
        if Rltb (sphere_radius * sphere_radius) closest_point_dist_squared then None
        else
          let half_chord := sqrt (sphere_radius * sphere_radius - closest_point_dist_squared) in
          let hit_distance := projected_distance - half_chord in
          let hit_point := vadd ray_origin (vscale ray_direction hit_distance) in
          Some (hit_distance, vdiv (vsub hit_point sphere_pos) sphere_radius)
  | RayBox box_pos box_half_size =>
      let min_bounds := vsub box_pos box_half_size in
      let max_bounds := vadd box_pos box_half_size in
      match slab_loop ray_origin ray_direction min_bounds max_bounds
              (mkSlab NegInf PosInf 0%nat 1) [0%nat; 1%nat; 2%nat] with
      | None => None
      | Some s =>
          match (if ext_ltb (Fin 0) (t_min s) then t_min s else t_max s) with
          | Fin hd =>
              if Rltb 0 hd
              then Some (hd, vset vzero (hit_normal_axis s) (hit_normal_sign s))
              else None
          | NegInf | PosInf => None
          end
      end
  | RayOther => None
  end.

(** The state of the loop of [ray_cast] after the objects [seen]: either no
    object seen is hit within [max_distance], or [closest_hit] is the first
    object of [seen] at the least hit distance. *)
Definition closest_so_far (ray_origin ray_direction : V3) (max_distance : R)
  (seen : list RayObject) (st : option HitInfo * R) : Prop :=
  match fst st with
  | None =>
      snd st = max_distance
      /\ forall o, In o seen -> object_hit ray_origin ray_direction max_distance o = None
  | Some h =>
      snd st = hit_distance h
      /\ hit_distance h < max_distance
      /\ hit_point h = vadd ray_origin (vscale ray_direction (hit_distance h))
      /\ exists before after,
          seen = before ++ hit_object h :: after
          /\ object_hit ray_origin ray_direction max_distance (hit_object h)
             = Some (hit_distance h, hit_normal h)
          /\ (forall o d n, In o before ->
                object_hit ray_origin ray_direction max_distance o = Some (d, n) ->
                hit_distance h < d)
          /\ (forall o d n, In o after ->
                object_hit ray_origin ray_direction max_distance o = Some (d, n) ->
                hit_distance h <= d)
  end.

(** *** CollisionResolver *)

Definition resolve_sphere_collision (pos1 velocity1 : V3) (mass1 radius1 : R)
  (pos2 velocity2 : V3) (mass2 radius2 : R) (restitution : R) : V3 * V3 :=
  let normal := vsub pos1 pos2 in
  let distance := norm normal in
  if Rltb distance 0.0001 then (velocity1, velocity2)
  else
    let normal := vdiv normal distance in
    let rel_velocity := vsub velocity1 velocity2 in
    let vel_along_normal := dot rel_velocity normal in
    if Rltb 0 vel_along_normal then (velocity1, velocity2)
    else
      let j := - (1 + restitution) * vel_along_normal in
      let j := j / ((1 / mass1) + (1 / mass2)) in
      let new_velocity1 := vadd velocity1 (vscale normal (j / mass1)) in
      let new_velocity2 := vsub velocity2 (vscale normal (j / mass2)) in
      (new_velocity1, new_velocity2).

Definition resolve_penetration (pos1 : V3) (radius1 : R) (pos2 : V3) (radius2 : R)
  : V3 * V3 :=
  let direction := vsub pos1 pos2 in
  let distance := norm direction in
  let '(direction, distance) :=
    if Rltb distance 0.0001 then (mkV3 1 0 0, 1)
    else (vdiv direction distance, distance) in
  let penetration := radius1 + radius2 - distance in
  if Rleb penetration 0 then (pos1, pos2)
  else
    let displacement := vdiv (vscale direction penetration) 2 in
    (vadd pos1 displacement, vsub pos2 displacement).

(** *** CollisionManager *)

(** [self.collision_layers]: layer name to the set of object ids in it, and
    the collision matrix: layer name to the list of layer names it collides
    with.  Both are dicts; lookup by key finds the entry of that name. *)
Definition Layers : Type := list (string * list Z).
Definition Matrix : Type := list (string * list string).

Fixpoint lookup {A : Type} (k : string) (d : list (string * A)) : option A :=
  match d with
  | [] => None
  | (k', v) :: rest => if String.eqb k k' then Some v else lookup k rest
  end.

Definition mem_id (x : Z) (s : list Z) : bool := existsb (Z.eqb x) s.
Definition mem_layer (x : string) (l : list string) : bool := existsb (String.eqb x) l.

(** [obj_layers]: the names collected by the first loop of
    [should_check_collision] for one object id. *)
Definition layers_of (collision_layers : Layers) (obj_id : Z) : list string :=
  map fst (filter (fun e => mem_id obj_id (snd e)) collision_layers).

Definition should_check_collision (collision_layers : Layers) (obj1_id obj2_id : Z)
  (collision_matrix : Matrix) : bool :=
  let obj1_layers := layers_of collision_layers obj1_id in
  let obj2_layers := layers_of collision_layers obj2_id in
  existsb (fun layer1 =>
    match lookup layer1 collision_matrix with
    | Some allowed => existsb (fun layer2 => mem_layer layer2 allowed) obj2_layers
    | None => false
    end) obj1_layers.

(** The matrix declares a permission from a layer of [a] to a layer of [b]:
    [a] is in some layer [layer_a], [b] in some layer [layer_b], and
    [layer_b] is listed in [collision_matrix[layer_a]]. *)
Definition declares (collision_layers : Layers) (collision_matrix : Matrix)
  (a b : Z) : Prop :=
  exists layer_a ids_a layer_b ids_b allowed,
    In (layer_a, ids_a) collision_layers /\ In a ids_a /\
    In (layer_b, ids_b) collision_layers /\ In b ids_b /\
    lookup layer_a collision_matrix = Some allowed /\ In layer_b allowed.

(** A game object as [process_collisions] reads it: ['shape'] with the
    parameter of that shape (['radius'] or ['half_size']), ['position'],
    ['velocity'] and ['mass'].  [OtherShape] is a ['shape'] that is neither
    ['sphere'] nor ['box']. *)
Inductive Shape : Type :=
  | Sphere (radius : R)
  | Box (half_size : V3)
  | OtherShape.

Record Body : Type := mkBody
  { shape : Shape; position : V3; velocity : V3; mass : R }.

(** [game_objects] is a dict of dicts.  The inner dicts are mutable objects:
    the outer dict holds references to them, and [game_objects.copy()] is a
    new outer dict holding the same references.  The store holds the current
    contents of every inner dict, at the position its reference names. *)
Definition Ref : Type := nat.
Definition Store : Type := list Body.
Definition GameObjects : Type := list (Z * Ref).

(** Reading through a reference.  Python references never dangle; [no_body]
    only makes the read total. *)
Definition no_body : Body := mkBody OtherShape vzero vzero 0.
Definition deref (st : Store) (r : Ref) : Body := nth r st no_body.

Fixpoint store_set (st : Store) (r : Ref) (b : Body) : Store :=
  match st, r with
  | [], _ => []
  | _ :: rest, O => b :: rest
  | x :: rest, S r' => x :: store_set rest r' b
  end.

(** [d['velocity'] = v] and [d['position'] = p] on the inner dict at [r] *)
Definition set_velocity (st : Store) (r : Ref) (v : V3) : Store :=
  let d := deref st r in
  store_set st r (mkBody (shape d) (position d) v (mass d)).
Definition set_position (st : Store) (r : Ref) (p : V3) : Store :=
  let d := deref st r in
  store_set st r (mkBody (shape d) p (velocity d) (mass d)).

(** Lines 474-496: the detector chosen by the two shapes. *)
Definition detect (obj1 obj2 : Body) : bool * option V3 :=
  match shape obj1, shape obj2 with
  | Sphere radius1, Sphere radius2 =>
      check_sphere_sphere (position obj1) radius1 (position obj2) radius2
  | Box half_size1, Box half_size2 =>
      check_box_box (position obj1) half_size1 (position obj2) half_size2
  | Sphere radius1, Box half_size2 =>
      match check_sphere_box (position obj1) radius1 (position obj2) half_size2 with
      | (true, Some collision_normal) => (true, Some (vneg collision_normal))
      | r => r
      end
  | Box half_size1, Sphere radius2 =>
      check_sphere_box (position obj2) radius2 (position obj1) half_size1
  | _, _ => (false, None)
  end.

(** Lines 498-544: the resolution of one detected pair.  [r1] and [r2] are
    the inner dicts [obj1 = game_objects[obj1_id]] and
    [obj2 = game_objects[obj2_id]]; [updated_objects[obj1_id]] is the same
    inner dict [r1].  Every read [obj1[...]] is a read of the store at the
    time the statement runs. *)
Definition resolve_pair (restitution : R) (r1 r2 : Ref) (collision_normal : V3)
  (st : Store) : Store :=
  match shape (deref st r1), shape (deref st r2) with
  | Sphere radius1, Sphere radius2 =>
      let '(new_vel1, new_vel2) :=
        resolve_sphere_collision
          (position (deref st r1)) (velocity (deref st r1)) (mass (deref st r1)) radius1
          (position (deref st r2)) (velocity (deref st r2)) (mass (deref st r2)) radius2
          restitution in
      let st := set_velocity st r1 new_vel1 in
      let st := set_velocity st r2 new_vel2 in
      let '(new_pos1, new_pos2) :=
        resolve_penetration (position (deref st r1)) radius1 (position (deref st r2)) radius2 in
      let st := set_position st r1 new_pos1 in
      let st := set_position st r2 new_pos2 in
      st
  | _, _ =>
      let rel_velocity := vsub (velocity (deref st r1)) (velocity (deref st r2)) in
      let vel_along_normal := dot rel_velocity collision_normal in
      if Rltb 0 vel_along_normal then st
      else
        let j := - (1 + restitution) * vel_along_normal in
        let j := j / ((1 / mass (deref st r1)) + (1 / mass (deref st r2))) in
        let impulse := vscale collision_normal j in
        let st := set_velocity st r1
                    (vadd (velocity (deref st r1)) (vdiv impulse (mass (deref st r1)))) in
        let st := set_velocity st r2
                    (vsub (velocity (deref st r2)) (vdiv impulse (mass (deref st r2)))) in
        let penetration := 0.1 in
        let correction :=
          vdiv (vscale collision_normal (penetration * 0.8))
               (1 / mass (deref st r1) + 1 / mass (deref st r2)) in
        let st := set_position st r1
                    (vadd (position (deref st r1)) (vdiv correction (mass (deref st r1)))) in
        let st := set_position st r2
                    (vsub (position (deref st r2)) (vdiv correction (mass (deref st r2)))) in
        st
  end.

(** The body of the double loop for the pair [(i, j)].  The keys of a dict
    are distinct, so [game_objects[obj1_id]] is the reference stored with
    [obj1_id]: a pair of entries [(obj1_id, r1), (obj2_id, r2)] stands for
    the pair of ids. *)
Definition process_pair (collision_layers : Layers) (collision_matrix : Matrix)
  (restitution : R) (st : Store) (p : (Z * Ref) * (Z * Ref)) : Store :=
  let '((obj1_id, r1), (obj2_id, r2)) := p in
  if negb (should_check_collision collision_layers obj1_id obj2_id collision_matrix)
  then st
  else
    match detect (deref st r1) (deref st r2) with
    | (true, Some collision_normal) => resolve_pair restitution r1 r2 collision_normal st
    | _ => st
    end.

(** [for i in range(len(ids) - 1): for j in range(i + 1, len(ids))] *)
Fixpoint pairs {A : Type} (l : list A) : list (A * A) :=
  match l with
  | [] => []
  | x :: rest => map (pair x) rest ++ pairs rest
  end.

(** [process_collisions]: the returned dict [updated_objects] (the copy of
    the outer dict) and the store after the call. *)
Definition process_collisions (collision_layers : Layers) (game_objects : GameObjects)
  (collision_matrix : Matrix) (restitution : R) (st : Store) : GameObjects * Store :=
  let updated_objects := game_objects in
  (updated_objects,
   fold_left (process_pair collision_layers collision_matrix restitution)
             (pairs game_objects) st).

(** The six face distances and face normals of the degenerate branch of
    [check_sphere_box], in the order of the source (left, right, bottom, top,
    back, front). *)
Definition face_distances (sphere_pos box_pos box_half_size : V3) : list R :=
  [ Rabs (vx sphere_pos - (vx box_pos - vx box_half_size));
    Rabs (vx sphere_pos - (vx box_pos + vx box_half_size));
    Rabs (vy sphere_pos - (vy box_pos - vy box_half_size));
    Rabs (vy sphere_pos - (vy box_pos + vy box_half_size));
    Rabs (vz sphere_pos - (vz box_pos - vz box_half_size));
    Rabs (vz sphere_pos - (vz box_pos + vz box_half_size)) ].

Definition face_normals : list V3 :=
  [ mkV3 (-1) 0 0; mkV3 1 0 0; mkV3 0 (-1) 0; mkV3 0 1 0; mkV3 0 0 (-1); mkV3 0 0 1 ].

(** The penetration depth [check_box_box] computes on one axis. *)
Definition axis_depth (p1 h1 p2 h2 : R) : R :=
  Rmin (p1 + h1 - (p2 - h2)) (p2 + h2 - (p1 - h1)).

(** Two stores hold the same objects with the same shapes and masses. *)
Definition same_frame (st st' : Store) : Prop :=
  List.length st' = List.length st
  /\ forall r, shape (deref st' r) = shape (deref st r)
               /\ mass (deref st' r) = mass (deref st r).

(** [add_to_layer] and [remove_from_layer].  A layer's set of ids is kept
    as a list; [set.add] appends an id that is not there yet and
    [set.discard] drops it.  The entry of [layer_name] is the one updated. *)
Definition set_add (x : Z) (s : list Z) : list Z :=
  if mem_id x s then s else s ++ [x].

Definition set_discard (x : Z) (s : list Z) : list Z :=
  filter (fun y => negb (Z.eqb x y)) s.

Definition has_layer (layer_name : string) (collision_layers : Layers) : bool :=
  match lookup layer_name collision_layers with Some _ => true | None => false end.

Definition add_to_layer (collision_layers : Layers) (object_id : Z)
  (layer_name : string) : Layers :=
  let collision_layers :=
    if negb (has_layer layer_name collision_layers)
    then collision_layers ++ [(layer_name, [])]
    else collision_layers in
  map (fun e => if String.eqb layer_name (fst e)
                then (fst e, set_add object_id (snd e)) else e)
      collision_layers.

Definition remove_from_layer (collision_layers : Layers) (object_id : Z)
  (layer_name : string) : Layers :=
  if has_layer layer_name collision_layers then
    map (fun e => if String.eqb layer_name (fst e)
                  then (fst e, set_discard object_id (snd e)) else e)
        collision_layers
  else collision_layers.

(** *** Scenes used in the examples below *)

(** One layer holding the bodies 1, 2 and 3, allowed to collide with itself. *)
Definition world_layers : Layers := [("world", [1%Z; 2%Z; 3%Z])].
Definition world_matrix : Matrix := [("world", ["world"])].

(** A sphere of radius 1 and mass 1, at rest at [(x, 0, 0)]. *)
Definition ball (x : R) : Body := mkBody (Sphere 1) (mkV3 x 0 0) vzero 1.

(** Three balls on the X axis, [{1: A, 2: B, 3: C}]: A and B overlap, B and C
    are 2.1 apart and do not touch. *)
Definition three_balls : Store := [ball 0; ball 1.5; ball 3.6].
Definition three_ids : GameObjects := [(1%Z, 0%nat); (2%Z, 1%nat); (3%Z, 2%nat)].

(** A unit box at the origin moving at speed 1 toward a resting ball that it
    overlaps, [{1: box, 2: ball}], and the same two bodies in the other
    order, [{1: ball, 2: box}]. *)
Definition moving_box : Body := mkBody (Box (mkV3 1 1 1)) (mkV3 0 0 0) (mkV3 1 0 0) 1.
Definition resting_ball : Body := mkBody (Sphere 1) (mkV3 1.5 0 0) vzero 1.
Definition box_then_ball : Store := [moving_box; resting_ball].
Definition ball_then_box : Store := [resting_ball; moving_box].
Definition two_ids : GameObjects := [(1%Z, 0%nat); (2%Z, 1%nat)].

End Collision.

(** ** gravity.py *)

Module Gravity.

(** Arithmetic on arrays that may hold [nan]/[inf]: a non-finite operand
    makes the result non-finite. *)
Definition np_scale (s : R) (a : npvec) : npvec :=
  match a with Finite v => Finite (vscale v s) | NonFinite => NonFinite end.

Definition np_add (a b : npvec) : npvec :=
  match a, b with
  | Finite u, Finite v => Finite (vadd u v)
  | _, _ => NonFinite
  end.

(** [a / np.linalg.norm(a)] *)
Definition np_normalize (a : npvec) : npvec :=
  match a with Finite v => np_div v (norm v) | NonFinite => NonFinite end.

(** [GravitySystem]: the attributes [modify_gravity] reads. *)
Record GravitySystem : Type := mkGravitySystem
  { gravity_constant : R; gravity_direction : npvec }.

(** [GravitySystem.__init__(gravity_constant, gravity_direction)] *)
Definition GravitySystem_init (gravity_constant : R) (gravity_direction : V3)
  : GravitySystem :=
  mkGravitySystem gravity_constant (np_normalize (Finite gravity_direction)).

(** [GravityZone]; [zone_direction] is [None] when no custom direction was
    given.  The radius of a zone is not zero (the influence factor divides
    by it). *)
Record GravityZone : Type := mkGravityZone
  { zone_position : V3;
    zone_radius : R;
    gravity_modifier : R;
    zone_direction : option V3;
    is_enabled : bool }.

Definition is_in_zone (z : GravityZone) (object_position : V3) : bool :=
  let distance := norm (vsub object_position (zone_position z)) in
  Rleb distance (zone_radius z).

Definition get_influence_factor (z : GravityZone) (object_position : V3) : R :=
  if negb (is_in_zone z object_position) then 0
  else
    let distance := norm (vsub object_position (zone_position z)) in
    1 - (distance / zone_radius z).

Definition modify_gravity (z : GravityZone) (gravity_system : GravitySystem)
  (object_position : V3) (influence_threshold : R) : R * npvec :=
  if negb (is_enabled z) then
    (gravity_constant gravity_system, gravity_direction gravity_system)
  else
    let influence := get_influence_factor z object_position in
    if Rleb influence influence_threshold then
      (gravity_constant gravity_system, gravity_direction gravity_system)
    else
      let modified_constant := gravity_constant gravity_system * gravity_modifier z in
      let modified_direction :=
        match zone_direction z with
        | Some d =>
            let normalized_direction := np_normalize (Finite d) in
            let blended_direction :=
              np_add (np_scale (1 - influence) (gravity_direction gravity_system))
                     (np_scale influence normalized_direction) in
            np_normalize blended_direction
        | None => gravity_direction gravity_system
        end in
      (modified_constant, modified_direction).

(** The default [influence_threshold] *)
Definition default_influence_threshold : R := 0.05.

(** *** The rest of GravitySystem *)

(** [self.gravity_vector] and [self.affected_objects] beside the two
    attributes of [GravitySystem] above.  The registered game objects are
    mutable objects: the list holds references into a store of objects. *)
Record GravityWorld : Type := mkWorld
  { core : GravitySystem; gravity_vector : npvec; affected_objects : list nat }.

(** A game object as gravity.py reads it: the attributes it tests with
    [hasattr], [None] when the object lacks one. *)
Record GameObject : Type := mkObject
  { obj_position : option V3; obj_velocity : option npvec; obj_mass : option R }.

Definition ObjectStore : Type := list GameObject.
Definition no_object : GameObject := mkObject None None None.
Definition object_at (st : ObjectStore) (r : nat) : GameObject := nth r st no_object.

Fixpoint object_set (st : ObjectStore) (r : nat) (o : GameObject) : ObjectStore :=
  match st, r with
  | [], _ => []
  | _ :: rest, O => o :: rest
  | x :: rest, S r' => x :: object_set rest r' o
  end.

(** [GravitySystem.__init__]: the whole state. *)
Definition GravityWorld_init (gravity_constant : R) (gravity_direction : V3)
  : GravityWorld :=
  let c := GravitySystem_init gravity_constant gravity_direction in
  mkWorld c (np_scale (Gravity.gravity_constant c) (Gravity.gravity_direction c)) [].

Definition mem_ref (r : nat) (l : list nat) : bool := existsb (Nat.eqb r) l.

(** [list.remove(x)]: drops the first occurrence. *)
Fixpoint list_remove (r : nat) (l : list nat) : list nat :=
  match l with
  | [] => []
  | x :: rest => if Nat.eqb r x then rest else x :: list_remove r rest
  end.

Definition register_object (self : GravityWorld) (game_object : nat) : GravityWorld :=
  if negb (mem_ref game_object (affected_objects self))
  then mkWorld (core self) (gravity_vector self) (affected_objects self ++ [game_object])
  else self.

Definition unregister_object (self : GravityWorld) (game_object : nat) : GravityWorld :=
  if mem_ref game_object (affected_objects self)
  then mkWorld (core self) (gravity_vector self)
               (list_remove game_object (affected_objects self))
  else self.

(** [apply_gravity]: the object after [game_object.velocity += ...]. *)
Definition apply_gravity (self : GravityWorld) (game_object : GameObject)
  (delta_time : R) : GameObject :=
  match obj_velocity game_object, obj_mass game_object with
  | Some velocity, Some _ =>
      let acceleration := gravity_vector self in
      mkObject (obj_position game_object)
               (Some (np_add velocity (np_scale delta_time acceleration)))
               (obj_mass game_object)
  | _, _ => game_object
  end.

(** [update]: [apply_gravity] on every registered object, in order. *)
Definition update (self : GravityWorld) (st : ObjectStore) (delta_time : R)
  : ObjectStore :=
  fold_left (fun st obj => object_set st obj (apply_gravity self (object_at st obj) delta_time))
            (affected_objects self) st.

Definition set_gravity_strength (self : GravityWorld) (gravity_constant : R)
  : GravityWorld :=
  let c := mkGravitySystem gravity_constant (gravity_direction (core self)) in
  mkWorld c (np_scale (Gravity.gravity_constant c) (gravity_direction c))
          (affected_objects self).

Definition set_gravity_direction (self : GravityWorld) (gravity_direction : V3)
  : GravityWorld :=
  let c := mkGravitySystem (gravity_constant (core self))
                           (np_normalize (Finite gravity_direction)) in
  mkWorld c (np_scale (gravity_constant c) (Gravity.gravity_direction c))
          (affected_objects self).

Definition disable_gravity (self : GravityWorld) : GravityWorld :=
  set_gravity_strength self 0.

Definition enable_gravity (self : GravityWorld) (gravity_constant : R) : GravityWorld :=
  set_gravity_strength self gravity_constant.

(** [apply_custom_gravity].  [attractor_position] is [attractor.position].
    The result is [None] when the code divides by zero (a distance or a mass
    of 0: Python raises [ZeroDivisionError], numpy yields [inf]/[nan]). *)
Definition apply_custom_gravity (game_object : GameObject) (attractor_position : V3)
  (attractor_mass delta_time min_distance gravity_constant : R) : option GameObject :=
  match obj_position game_object, obj_velocity game_object, obj_mass game_object with
  | Some position, Some velocity, Some mass =>
      let direction := vsub attractor_position position in
      let distance := Rmax (norm direction) min_distance in
      let direction := if Rltb 0 distance then vdiv direction distance else direction in
      if Reqb (distance * distance) 0 then None
      else
        let force_magnitude :=
          gravity_constant * (mass * attractor_mass) / (distance * distance) in
        if Reqb mass 0 then None
        else
          let acceleration := vscale direction (force_magnitude / mass) in
          Some (mkObject (obj_position game_object)
                         (Some (np_add velocity (Finite (vscale acceleration delta_time))))
                         (obj_mass game_object))
  | _, _, _ => Some game_object
  end.

(** The operations that change a [GravitySystem], and a run of them. *)
Inductive GravityOp : Type :=
  | OpRegister (game_object : nat)
  | OpUnregister (game_object : nat)
  | OpSetStrength (gravity_constant : R)
  | OpSetDirection (gravity_direction : V3)
  | OpDisable
  | OpEnable (gravity_constant : R).

Definition run_op (self : GravityWorld) (op : GravityOp) : GravityWorld :=
  match op with
  | OpRegister o => register_object self o
  | OpUnregister o => unregister_object self o
  | OpSetStrength c => set_gravity_strength self c
  | OpSetDirection d => set_gravity_direction self d
  | OpDisable => disable_gravity self
  | OpEnable c => enable_gravity self c
  end.

(** What every run of operations from [__init__] keeps. *)
Definition well_formed (w : GravityWorld) : Prop :=
  gravity_vector w = np_scale (gravity_constant (core w)) (gravity_direction (core w))
  /\ NoDup (affected_objects w).

(** *** Scene used in the example below *)

(** The default system (gravity 9.81 along -Y) and a zone of radius 2 at the
    origin whose custom direction is +Y. *)
Definition default_system : GravitySystem := GravitySystem_init 9.81 (mkV3 0 (-1) 0).
Definition upward_zone : GravityZone :=
  mkGravityZone vzero 2 1 (Some (mkV3 0 1 0)) true.

End Gravity.

(** ** motion.py *)

Module Motion.

(** A game object as motion.py reads it.  ['position'] and ['velocity'] are
    read with [obj[...]]; the other keys are read with [obj.get(key, default)]
    or tested with [in], and are [None] when the dict lacks them. *)
Record Body : Type := mkBody
  { position : V3;
    velocity : V3;
    mass : option R;
    is_grounded : option bool;
    has_physics : option bool;
    has_controller : option bool;
    input_direction : option V3;
    forward_vector : option V3;
    is_sprinting : option bool;
    is_crouching : option bool }.

(** [obj.get(key, default)] *)
Definition get {A : Type} (field : option A) (default : A) : A :=
  match field with Some v => v | None => default end.

(** [updated_obj = obj.copy()] followed by [updated_obj[key] = v] *)
Definition with_velocity (obj : Body) (v : V3) : Body :=
  mkBody (position obj) v (mass obj) (is_grounded obj) (has_physics obj)
         (has_controller obj) (input_direction obj) (forward_vector obj)
         (is_sprinting obj) (is_crouching obj).
Definition with_position (obj : Body) (p : V3) : Body :=
  mkBody p (velocity obj) (mass obj) (is_grounded obj) (has_physics obj)
         (has_controller obj) (input_direction obj) (forward_vector obj)
         (is_sprinting obj) (is_crouching obj).
Definition with_is_grounded (obj : Body) (g : bool) : Body :=
  mkBody (position obj) (velocity obj) (mass obj) (Some g) (has_physics obj)
         (has_controller obj) (input_direction obj) (forward_vector obj)
         (is_sprinting obj) (is_crouching obj).

(** *** class Motion *)

Record MotionState : Type := mkMotion
  { gravity : V3; air_resistance : R; ground_friction : R }.

(** [Motion.__init__] *)
Definition Motion_init : MotionState := mkMotion (mkV3 0 (-9.81) 0) 0.01 0.1.

Definition apply_force (mass : R) (current_velocity force : V3) (delta_time : R) : V3 :=
  let acceleration := vdiv force mass in
  let new_velocity := vadd current_velocity (vscale acceleration delta_time) in
  new_velocity.

Definition apply_impulse (mass : R) (current_velocity impulse : V3) : V3 :=
  let velocity_change := vdiv impulse mass in
  let new_velocity := vadd current_velocity velocity_change in
  new_velocity.

Definition apply_gravity (self : MotionState) (velocity : V3) (is_grounded : bool)
  (delta_time : R) : V3 :=
  if negb is_grounded then vadd velocity (vscale (gravity self) delta_time)
  else velocity.

Definition apply_air_resistance (self : MotionState) (velocity : V3) (delta_time : R)
  : V3 :=
  let speed := norm velocity in
  if Rltb 0.001 speed then
    let deceleration := vscale velocity (- air_resistance self) in
    let new_velocity := vadd velocity (vscale deceleration delta_time) in
    let new_speed := norm new_velocity in
    if Rltb new_speed 0.001 || Rltb (dot new_velocity velocity) 0 then vzero
    else new_velocity
  else vzero.

Definition apply_ground_friction (self : MotionState) (velocity : V3)
  (is_grounded : bool) (delta_time : R) : V3 :=
  if negb is_grounded then velocity
  else
    let horizontal_velocity := mkV3 (vx velocity) 0 (vz velocity) in
    let speed := norm horizontal_velocity in
    if Rltb 0.001 speed then
      let friction_direction := vdiv (vneg horizontal_velocity) speed in
      let deceleration := vscale (vscale friction_direction (ground_friction self)) 9.81 in
      let new_horizontal := vadd horizontal_velocity (vscale deceleration delta_time) in
      let new_speed := norm new_horizontal in
      let new_horizontal :=
        if Rltb new_speed 0.001 || Rltb (dot new_horizontal horizontal_velocity) 0
        then vzero else new_horizontal in
      mkV3 (vx new_horizontal) (vy velocity) (vz new_horizontal)
    else mkV3 0 (vy velocity) 0.

Definition update_position (position velocity : V3) (delta_time : R) : V3 :=
  vadd position (vscale velocity delta_time).

Definition process_object_motion (self : MotionState) (obj : Body) (delta_time : R)
  : Body :=
  let updated_obj := obj in
  let updated_obj := with_velocity updated_obj
    (apply_gravity self (velocity updated_obj)
       (get (is_grounded updated_obj) false) delta_time) in
  let updated_obj := with_velocity updated_obj
    (apply_air_resistance self (velocity updated_obj) delta_time) in
  let updated_obj := with_velocity updated_obj
    (apply_ground_friction self (velocity updated_obj)
       (get (is_grounded updated_obj) false) delta_time) in
  let updated_obj := with_position updated_obj
    (update_position (position updated_obj) (velocity updated_obj) delta_time) in
  updated_obj.

(** *** class OmniMovement *)

Record OmniState : Type := mkOmni
  { max_speed : R;
    acceleration : R;
    deceleration : R;
    air_control : R;
    strafe_speed_multiplier : R;
    backward_speed_multiplier : R;
    sprint_multiplier : R;
    crouch_multiplier : R }.

(** [OmniMovement.__init__] *)
Definition OmniMovement_init : OmniState := mkOmni 5 20 25 0.3 0.8 0.7 1.5 0.5.

Definition calculate_move_direction (forward_vec right_vec input_direction : V3) : V3 :=
  let forward_component := vscale forward_vec (vz input_direction) in
  let right_component := vscale right_vec (vx input_direction) in
  let move_direction := vadd forward_component right_component in
  let magnitude := norm move_direction in
  if Rltb 0.001 magnitude then vdiv move_direction magnitude else move_direction.

Definition apply_movement_input (self : OmniState) (obj : Body) (input_direction : V3)
  (delta_time : R) (is_sprinting is_crouching : bool) : Body :=
  let updated_obj := obj in
  let forward_vec := get (forward_vector obj) (mkV3 0 0 1) in
  let right_vec := cross (mkV3 0 1 0) forward_vec in
  let right_vec := vdiv right_vec (Rmax (norm right_vec) 0.001) in
  if Rltb 0.001 (norm input_direction) then
    let move_direction := calculate_move_direction forward_vec right_vec input_direction in
    let forward_alignment := dot move_direction forward_vec in
    let direction_multiplier := 1 in
    let direction_multiplier :=
      if Rltb forward_alignment (-0.3) then backward_speed_multiplier self
      else if Rltb (Rabs forward_alignment) 0.7 then strafe_speed_multiplier self
      else direction_multiplier in
    let direction_multiplier :=
      if is_sprinting then direction_multiplier * sprint_multiplier self
      else if is_crouching then direction_multiplier * crouch_multiplier self
      else direction_multiplier in
    let current_max_speed := max_speed self * direction_multiplier in
    let desired_velocity := vscale move_direction current_max_speed in
    let acceleration_modifier :=
      if negb (get (is_grounded obj) true) then air_control self else 1 in
    let current_velocity_horizontal := mkV3 (vx (velocity obj)) 0 (vz (velocity obj)) in
    let desired_velocity_horizontal := mkV3 (vx desired_velocity) 0 (vz desired_velocity) in
    let acceleration_vector :=
      vdiv (vsub desired_velocity_horizontal current_velocity_horizontal) delta_time in
    let accel_magnitude := norm acceleration_vector in
    let acceleration_vector :=
      if Rltb (acceleration self * acceleration_modifier) accel_magnitude then
        vscale acceleration_vector
               (acceleration self * acceleration_modifier / accel_magnitude)
      else acceleration_vector in
    let force := vscale acceleration_vector (get (mass obj) 1) in
    let new_velocity := apply_force (get (mass obj) 1) (velocity obj) force delta_time in
    let new_velocity := vset new_velocity 1 (vy (velocity obj)) in
    with_velocity updated_obj new_velocity
  else
    let current_velocity_horizontal := mkV3 (vx (velocity obj)) 0 (vz (velocity obj)) in
    let speed := norm current_velocity_horizontal in
    if Rltb 0.001 speed then
      let deceleration_direction := vdiv (vneg current_velocity_horizontal) speed in
      let deceleration :=
        if negb (get (is_grounded obj) true)
        then deceleration self * air_control self else deceleration self in
      let force := vscale (vscale deceleration_direction deceleration) (get (mass obj) 1) in
      let new_velocity := apply_force (get (mass obj) 1) (velocity obj) force delta_time in
      let new_velocity := vset new_velocity 1 (vy (velocity obj)) in
      with_velocity updated_obj new_velocity
    else updated_obj.

Definition process_jump (obj : Body) (jump_force : R) : Body :=
  let updated_obj := obj in
  if get (is_grounded obj) false then
    let jump_impulse := mkV3 0 jump_force 0 in
    let updated_obj := with_velocity updated_obj
      (apply_impulse (get (mass obj) 1) (velocity obj) jump_impulse) in
    with_is_grounded updated_obj false
  else updated_obj.

Definition process_dash (obj : Body) (dash_direction : V3) (dash_force : R) : Body :=
  let updated_obj := obj in
  let magnitude := norm dash_direction in
  if Rltb 0.001 magnitude then
    let normalized_direction := vdiv dash_direction magnitude in
    let dash_impulse := vscale normalized_direction dash_force in
    with_velocity updated_obj
      (apply_impulse (get (mass obj) 1) (velocity obj) dash_impulse)
  else updated_obj.

(** *** class MotionPhysicsSystem *)

Record MotionPhysicsSystem : Type := mkSystem
  { motion : MotionState; omni_movement : OmniState }.

(** [MotionPhysicsSystem.__init__] *)
Definition MotionPhysicsSystem_init : MotionPhysicsSystem :=
  mkSystem Motion_init OmniMovement_init.

(** The body of the loop of [update] for one [(obj_id, obj)]. *)
Definition update_object (self : MotionPhysicsSystem) (obj : Body) (delta_time : R)
  : Body :=
  let updated_obj := obj in
  if negb (get (has_physics obj) true) then updated_obj
  else
    let updated_obj := process_object_motion (motion self) updated_obj delta_time in
    match get (has_controller obj) false, input_direction obj with
    | true, Some input =>
        apply_movement_input (omni_movement self) updated_obj input delta_time
          (get (is_sprinting obj) false) (get (is_crouching obj) false)
    | _, _ => updated_obj
    end.

(** [update]: the dict of updated objects, in the order of [game_objects]. *)
Definition update (self : MotionPhysicsSystem) (game_objects : list (Z * Body))
  (delta_time : R) : list (Z * Body) :=
  map (fun e => (fst e, update_object self (snd e) delta_time)) game_objects.

(** [OmniMovement.set_movement_params]: an argument left at [None] keeps
    the current value. *)
Definition set_movement_params (self : OmniState)
  (max_speed acceleration deceleration air_control strafe_multiplier
   backward_multiplier sprint_multiplier crouch_multiplier : option R) : OmniState :=
  mkOmni
    (match max_speed with Some x => x | None => Motion.max_speed self end)
    (match acceleration with Some x => x | None => Motion.acceleration self end)
    (match deceleration with Some x => x | None => Motion.deceleration self end)
    (match air_control with
     | Some x => Rmax 0 (Rmin 1 x)
     | None => Motion.air_control self
     end)
    (match strafe_multiplier with Some x => x | None => strafe_speed_multiplier self end)
    (match backward_multiplier with
     | Some x => x | None => backward_speed_multiplier self end)
    (match sprint_multiplier with Some x => x | None => Motion.sprint_multiplier self end)
    (match crouch_multiplier with Some x => x | None => Motion.crouch_multiplier self end).

(** The horizontal (X/Z) part of a velocity. *)
Definition horizontal (v : V3) : V3 := mkV3 (vx v) 0 (vz v).

(** *** Scenes used in the examples below *)

(** A dict with only ['position'] and ['velocity']. *)
Definition bare_body (position velocity : V3) : Body :=
  mkBody position velocity None None None None None None None None.

(** A body drifting along +X at 0.125 m/s, and a body at rest in the air. *)
Definition drifting_body : Body := bare_body vzero (mkV3 0.125 0 0).
Definition floating_body : Body := bare_body vzero vzero.

End Motion.

(** * Properties *)

(** ** Comparisons *)

Lemma Rltb_true a b : a < b -> Rltb a b = true.
Proof. intros H. unfold Rltb. destruct (Rlt_dec a b); [reflexivity | contradiction]. Qed.

Lemma Rltb_false a b : b <= a -> Rltb a b = false.
Proof. intros H. unfold Rltb. destruct (Rlt_dec a b); [lra | reflexivity]. Qed.

Lemma Rltb_iff a b : Rltb a b = true <-> a < b.
Proof. unfold Rltb. destruct (Rlt_dec a b); split; intros; (assumption || reflexivity || discriminate || contradiction). Qed.

Lemma Rltb_iff_false a b : Rltb a b = false <-> b <= a.
Proof. unfold Rltb. destruct (Rlt_dec a b); split; intros; try (discriminate || reflexivity); lra. Qed.

Lemma Rleb_true a b : a <= b -> Rleb a b = true.
Proof. intros H. unfold Rleb. destruct (Rle_dec a b); [reflexivity | contradiction]. Qed.

Lemma Rleb_false a b : b < a -> Rleb a b = false.
Proof. intros H. unfold Rleb. destruct (Rle_dec a b); [lra | reflexivity]. Qed.

Lemma Rleb_iff a b : Rleb a b = true <-> a <= b.
Proof. unfold Rleb. destruct (Rle_dec a b); split; intros; (assumption || reflexivity || discriminate || contradiction). Qed.

Lemma Rleb_iff_false a b : Rleb a b = false <-> b < a.
Proof. unfold Rleb. destruct (Rle_dec a b); split; intros; try (discriminate || reflexivity); lra. Qed.

Lemma Reqb_true a b : a = b -> Reqb a b = true.
Proof. intros H. unfold Reqb. destruct (Req_dec_T a b); [reflexivity | contradiction]. Qed.

Lemma Reqb_false a b : a <> b -> Reqb a b = false.
Proof. intros H. unfold Reqb. destruct (Req_dec_T a b); [contradiction | reflexivity]. Qed.

(** Decide a comparison between two closed numeric expressions. *)
Ltac cmp_true := first [ rewrite Rltb_true by lra | rewrite Rleb_true by lra ].
Ltac cmp_false := first [ rewrite Rltb_false by lra | rewrite Rleb_false by lra ].
Ltac cmp := repeat first [ cmp_true | cmp_false ].

(** ** Vectors *)

Module VecFacts.

Lemma V3_eq a b : vx a = vx b -> vy a = vy b -> vz a = vz b -> a = b.
Proof. destruct a, b; simpl; intros; subst; reflexivity. Qed.

Lemma dot_self_nonneg a : 0 <= dot a a.
Proof. unfold dot. nra. Qed.

Lemma norm_nonneg a : 0 <= norm a.
Proof. apply sqrt_pos. Qed.

Lemma norm_sq a : norm a * norm a = dot a a.
Proof. apply sqrt_sqrt, dot_self_nonneg. Qed.

Lemma norm_pos a : 0 < dot a a -> 0 < norm a.
Proof. intros H. apply sqrt_lt_R0, H. Qed.

Lemma norm_zero_iff a : norm a = 0 <-> a = vzero.
Proof.
  split.
  - intros H. pose proof (norm_sq a) as Hs. rewrite H in Hs.
    unfold dot in Hs. apply V3_eq; simpl; nra.
  - intros ->. unfold norm, dot; simpl.
    replace (0 * 0 + 0 * 0 + 0 * 0) with 0 by lra. apply sqrt_0.
Qed.

Lemma dot_vdiv_l a b s : dot (vdiv a s) b = dot a b / s.
Proof. unfold dot, vdiv; simpl. unfold Rdiv. ring. Qed.

Lemma dot_vdiv_r a b s : dot a (vdiv b s) = dot a b / s.
Proof. unfold dot, vdiv; simpl. unfold Rdiv. ring. Qed.

(** Dividing a non-zero vector by its norm gives a unit vector. *)
Lemma norm_normalized a : 0 < dot a a -> norm (vdiv a (norm a)) = 1.
Proof.
  intros H. pose proof (norm_pos a H) as Hn. unfold norm at 1.
  rewrite dot_vdiv_l, dot_vdiv_r.
  replace (dot a a / norm a / norm a) with 1.
  - apply sqrt_1.
  - rewrite <- (norm_sq a). field. lra.
Qed.

Lemma vsum_vmul a b : vsum (vmul a b) = dot a b.
Proof. reflexivity. Qed.

(** The norm of a vector along one axis. *)
Lemma norm_axis_x x : norm (mkV3 x 0 0) = Rabs x.
Proof.
  unfold norm, dot; simpl.
  replace (x * x + 0 * 0 + 0 * 0) with (Rsqr x) by (unfold Rsqr; lra).
  apply sqrt_Rsqr_abs.
Qed.

Lemma norm_axis_y y : norm (mkV3 0 y 0) = Rabs y.
Proof.
  unfold norm, dot; simpl.
  replace (0 * 0 + y * y + 0 * 0) with (Rsqr y) by (unfold Rsqr; lra).
  apply sqrt_Rsqr_abs.
Qed.

Lemma Rabs_pos_val x : 0 <= x -> Rabs x = x.
Proof. intros H. apply Rabs_right. lra. Qed.

Lemma Rabs_neg_val x : x <= 0 -> Rabs x = - x.
Proof. intros H. rewrite <- Rabs_Ropp. apply Rabs_right. lra. Qed.

Lemma dot_normalized a : 0 < dot a a -> dot (vdiv a (norm a)) (vdiv a (norm a)) = 1.
Proof.
  intros H. pose proof (norm_pos a H) as Hn.
  rewrite dot_vdiv_l, dot_vdiv_r, <- (norm_sq a). field. lra.
Qed.

Lemma dot_vadd_l a b c : dot (vadd a b) c = dot a c + dot b c.
Proof. unfold dot, vadd; simpl. ring. Qed.

Lemma dot_vsub_l a b c : dot (vsub a b) c = dot a c - dot b c.
Proof. unfold dot, vsub; simpl. ring. Qed.

Lemma dot_vscale_l a s c : dot (vscale a s) c = s * dot a c.
Proof. unfold dot, vscale; simpl. ring. Qed.

End VecFacts.
Import VecFacts.

(** Equality of two vectors with closed numeric components. *)
Ltac vec_simpl :=
  cbv [vx vy vz vadd vsub vmul vneg vscale vdiv vsum dot cross vget vset vzero].
Ltac vec_eq := apply V3_eq; vec_simpl; lra.

(** ** CollisionDetector.check_sphere_sphere *)

Module SphereSphere.
Import Collision.

Lemma hit_iff pos1 radius1 pos2 radius2 :
  fst (check_sphere_sphere pos1 radius1 pos2 radius2) = true
  <-> dot (vsub pos2 pos1) (vsub pos2 pos1) < (radius1 + radius2) * (radius1 + radius2).
Proof.
  unfold check_sphere_sphere. rewrite vsum_vmul.
  destruct (Rltb _ ((radius1 + radius2) * _)) eqn:E.
  - apply Rltb_iff in E. destruct (Rltb 0.0001 _); simpl; tauto.
  - apply Rltb_iff_false in E. simpl. split; [discriminate | lra].
Qed.

Lemma hit_regular pos1 radius1 pos2 radius2 :
  dot (vsub pos2 pos1) (vsub pos2 pos1) < (radius1 + radius2) * (radius1 + radius2) ->
  0.0001 < dot (vsub pos2 pos1) (vsub pos2 pos1) ->
  check_sphere_sphere pos1 radius1 pos2 radius2
  = (true, Some (vdiv (vsub pos2 pos1) (norm (vsub pos2 pos1)))).
Proof.
  intros H1 H2. unfold check_sphere_sphere. rewrite vsum_vmul.
  rewrite (Rltb_true _ _ H1), (Rltb_true _ _ H2). reflexivity.
Qed.

Lemma hit_degenerate pos1 radius1 pos2 radius2 :
  dot (vsub pos2 pos1) (vsub pos2 pos1) < (radius1 + radius2) * (radius1 + radius2) ->
  dot (vsub pos2 pos1) (vsub pos2 pos1) <= 0.0001 ->
  check_sphere_sphere pos1 radius1 pos2 radius2 = (true, Some (mkV3 0 1 0)).
Proof.
  intros H1 H2. unfold check_sphere_sphere. rewrite vsum_vmul.
  rewrite (Rltb_true _ _ H1), (Rltb_false _ _ H2). reflexivity.
Qed.

Lemma miss pos1 radius1 pos2 radius2 :
  (radius1 + radius2) * (radius1 + radius2) <= dot (vsub pos2 pos1) (vsub pos2 pos1) ->
  check_sphere_sphere pos1 radius1 pos2 radius2 = (false, None).
Proof.
  intros H. unfold check_sphere_sphere. rewrite vsum_vmul.
  rewrite (Rltb_false _ _ H). reflexivity.
Qed.

(** C2, as amended: [check_sphere_sphere] reports a hit iff the squared
    center distance is strictly less than [(rA+rB)] squared; on a hit with
    squared distance above 1e-4 the normal is unit length and points from
    the first sphere A toward the second sphere B (it is [posB - posA]
    normalized); on a hit with squared distance at most 1e-4 the normal is
    the fixed fallback +Y. *)
Theorem check_sphere_sphere_normal_A_to_B posA rA posB rB :
  (fst (check_sphere_sphere posA rA posB rB) = true
   <-> dot (vsub posB posA) (vsub posB posA) < (rA + rB) * (rA + rB))
  /\ (dot (vsub posB posA) (vsub posB posA) < (rA + rB) * (rA + rB) ->
      0.0001 < dot (vsub posB posA) (vsub posB posA) ->
      exists n, check_sphere_sphere posA rA posB rB = (true, Some n)
                /\ norm n = 1 /\ points_from_to n posA posB)
  /\ (dot (vsub posB posA) (vsub posB posA) < (rA + rB) * (rA + rB) ->
      dot (vsub posB posA) (vsub posB posA) <= 0.0001 ->
      check_sphere_sphere posA rA posB rB = (true, Some (mkV3 0 1 0))).
Proof.
  split; [apply hit_iff | split].
  - intros H1 H2. eexists. split; [apply hit_regular; assumption | split].
    + apply norm_normalized. lra.
    + assert (Hn : 0 < norm (vsub posB posA)) by (apply norm_pos; lra).
      exists (/ norm (vsub posB posA)). split.
      * apply Rinv_0_lt_compat, Hn.
      * reflexivity.
  - apply hit_degenerate.
Qed.

(** Two spheres of radius 1.5 centred at the origin and at (2,0,0). *)
Lemma check_sphere_sphere_normal_A_to_B_witness :
  exists n, check_sphere_sphere (mkV3 0 0 0) 1.5 (mkV3 2 0 0) 1.5 = (true, Some n)
            /\ norm n = 1 /\ points_from_to n (mkV3 0 0 0) (mkV3 2 0 0).
Proof.
  apply (check_sphere_sphere_normal_A_to_B (mkV3 0 0 0) 1.5 (mkV3 2 0 0) 1.5);
    vec_simpl; lra.
Defined.

(** C2 as stated fails: for spheres A at the origin and B at (2,0,0), both of
    radius 1.5, the normal returned is (1,0,0), which points from A toward B
    and not from B toward A. *)
Lemma check_sphere_sphere_normal_not_B_to_A :
  check_sphere_sphere (mkV3 0 0 0) 1.5 (mkV3 2 0 0) 1.5 = (true, Some (mkV3 1 0 0))
  /\ ~ points_from_to (mkV3 1 0 0) (mkV3 2 0 0) (mkV3 0 0 0).
Proof.
  split.
  - rewrite hit_regular by (vec_simpl; lra).
    replace (vsub (mkV3 2 0 0) (mkV3 0 0 0)) with (mkV3 2 0 0) by vec_eq.
    rewrite norm_axis_x, Rabs_pos_val by lra. do 2 f_equal. vec_eq.
  - intros [k [Hk E]]. apply (f_equal vx) in E. simpl in E. lra.
Qed.

End SphereSphere.

(** ** CollisionManager.should_check_collision *)

Module LayerFilter.
Import Collision.

Lemma mem_id_In x s : mem_id x s = true <-> In x s.
Proof.
  unfold mem_id. rewrite existsb_exists. split.
  - intros [y [Hy E]]. apply Z.eqb_eq in E. subst. exact Hy.
  - intros H. exists x. split; [exact H | apply Z.eqb_refl].
Qed.

Lemma mem_layer_In x l : mem_layer x l = true <-> In x l.
Proof.
  unfold mem_layer. rewrite existsb_exists. split.
  - intros [y [Hy E]]. apply String.eqb_eq in E. subst. exact Hy.
  - intros H. exists x. split; [exact H | apply String.eqb_refl].
Qed.

Lemma in_layers_of collision_layers obj_id layer :
  In layer (layers_of collision_layers obj_id)
  <-> exists ids, In (layer, ids) collision_layers /\ In obj_id ids.
Proof.
  unfold layers_of. rewrite in_map_iff. split.
  - intros [[l ids] [E H]]. simpl in E. subst l.
    apply filter_In in H. destruct H as [H1 H2]. simpl in H2.
    exists ids. split; [exact H1 | apply mem_id_In, H2].
  - intros [ids [H1 H2]]. exists (layer, ids). split; [reflexivity |].
    apply filter_In. split; [exact H1 | apply mem_id_In, H2].
Qed.

(** C3, as amended: the pair (A, B) is checked iff the matrix declares a
    permission from a layer of the first body A to a layer of the second
    body B; only this direction is consulted. *)
Theorem should_check_collision_one_direction collision_layers a b collision_matrix :
  should_check_collision collision_layers a b collision_matrix = true
  <-> declares collision_layers collision_matrix a b.
Proof.
  unfold should_check_collision, declares. rewrite existsb_exists. split.
  - intros [layer_a [Ha H]]. apply in_layers_of in Ha. destruct Ha as [ids_a [Ha1 Ha2]].
    destruct (lookup layer_a collision_matrix) as [allowed |] eqn:El; [| discriminate].
    apply existsb_exists in H. destruct H as [layer_b [Hb Hal]].
    apply in_layers_of in Hb. destruct Hb as [ids_b [Hb1 Hb2]].
    apply mem_layer_In in Hal.
    exists layer_a, ids_a, layer_b, ids_b, allowed. repeat split; assumption.
  - intros (layer_a & ids_a & layer_b & ids_b & allowed & Ha1 & Ha2 & Hb1 & Hb2 & El & Hal).
    exists layer_a. split.
    + apply in_layers_of. exists ids_a. split; assumption.
    + rewrite El. apply existsb_exists. exists layer_b. split.
      * apply in_layers_of. exists ids_b. split; assumption.
      * apply mem_layer_In, Hal.
Qed.

(** C3 as stated fails: with body 1 in layer "player", body 2 in layer
    "enemy" and a matrix that only declares "enemy" -> "player", the
    permission is declared in the direction layer(B) -> layer(A), yet the
    pair (1, 2) is not checked. *)
Lemma should_check_collision_reverse_only_unchecked :
  should_check_collision [("player", [1%Z]); ("enemy", [2%Z])] 1 2
                         [("enemy", ["player"])] = false
  /\ declares [("player", [1%Z]); ("enemy", [2%Z])] [("enemy", ["player"])] 2 1.
Proof.
  split; [reflexivity |].
  exists "enemy", [2%Z], "player", [1%Z], ["player"].
  simpl. repeat split; auto.
Qed.

End LayerFilter.

(** ** CollisionManager.process_collisions *)

Module Manager.
Import Collision.

(** What [detect] does with the normal of the sphere-box detector. *)
Lemma detect_sphere_box obj1 obj2 radius1 half_size2 :
  shape obj1 = Sphere radius1 -> shape obj2 = Box half_size2 ->
  detect obj1 obj2 =
  match check_sphere_box (position obj1) radius1 (position obj2) half_size2 with
  | (true, Some n) => (true, Some (vneg n))
  | r => r
  end.
Proof. intros H1 H2. unfold detect. rewrite H1, H2. reflexivity. Qed.

Lemma detect_box_sphere obj1 obj2 half_size1 radius2 :
  shape obj1 = Box half_size1 -> shape obj2 = Sphere radius2 ->
  detect obj1 obj2 = check_sphere_box (position obj2) radius2 (position obj1) half_size1.
Proof. intros H1 H2. unfold detect. rewrite H1, H2. reflexivity. Qed.

Ltac minmax := unfold Rmax, Rmin; repeat destruct (Rle_dec _ _); try lra.

(** The sphere-box detector on the ball and the box of the scene: the normal
    points from the box toward the sphere. *)
Lemma check_sphere_box_scene :
  check_sphere_box (mkV3 1.5 0 0) 1 (mkV3 0 0 0) (mkV3 1 1 1) = (true, Some (mkV3 1 0 0)).
Proof.
  unfold check_sphere_box. cbv [vx vy vz].
  replace (Rmax (0 - 1) (Rmin 1.5 (0 + 1))) with 1 by minmax.
  replace (Rmax (0 - 1) (Rmin 0 (0 + 1))) with 0 by minmax.
  replace (vsub (mkV3 1.5 0 0) (mkV3 1 0 0)) with (mkV3 0.5 0 0) by vec_eq.
  rewrite vsum_vmul.
  replace (dot (mkV3 0.5 0 0) (mkV3 0.5 0 0)) with (0.5 * 0.5) by (vec_simpl; lra).
  rewrite sqrt_square by lra. cmp. do 2 f_equal. vec_eq.
Qed.

Lemma vneg_x x : vneg (mkV3 x 0 0) = mkV3 (- x) 0 0.
Proof. vec_eq. Qed.

(** C4 fails on the code: the negation sits in the other branch.  With the
    box first and the ball second the detector's normal (1,0,0) is used as
    returned; with the ball first and the box second it is negated.  Either
    way the normal handed to the resolution points from the first body to
    the second, so the box moving toward the ball counts as "moving apart"
    and the overlapping, approaching pair is left unresolved in both
    orders. *)
Theorem detect_negates_when_sphere_first :
  check_sphere_box (position resting_ball) 1 (position moving_box) (mkV3 1 1 1)
    = (true, Some (mkV3 1 0 0))
  /\ detect moving_box resting_ball = (true, Some (mkV3 1 0 0))
  /\ detect resting_ball moving_box = (true, Some (mkV3 (-1) 0 0))
  /\ process_collisions world_layers two_ids world_matrix 0.5 box_then_ball
     = (two_ids, box_then_ball)
  /\ process_collisions world_layers two_ids world_matrix 0.5 ball_then_box
     = (two_ids, ball_then_box).
Proof.
  assert (Hbs : detect moving_box resting_ball = (true, Some (mkV3 1 0 0))).
  { rewrite (detect_box_sphere _ _ (mkV3 1 1 1) 1) by reflexivity.
    apply check_sphere_box_scene. }
  assert (Hsb : detect resting_ball moving_box = (true, Some (mkV3 (-1) 0 0))).
  { rewrite (detect_sphere_box _ _ 1 (mkV3 1 1 1)) by reflexivity.
    cbv [position resting_ball moving_box]. rewrite check_sphere_box_scene.
    rewrite vneg_x. reflexivity. }
  split; [apply check_sphere_box_scene | split; [exact Hbs | split; [exact Hsb |]]].
  unfold process_collisions. split; f_equal.
  - cbv [pairs two_ids map app fold_left process_pair].
    replace (should_check_collision world_layers 1 2 world_matrix) with true by reflexivity.
    cbv [negb]. change (deref box_then_ball 0%nat) with moving_box.
    change (deref box_then_ball 1%nat) with resting_ball. rewrite Hbs.
    unfold resolve_pair. change (deref box_then_ball 0%nat) with moving_box.
    change (deref box_then_ball 1%nat) with resting_ball.
    cbv [shape velocity moving_box resting_ball].
    rewrite Rltb_true by (vec_simpl; lra). reflexivity.
  - cbv [pairs two_ids map app fold_left process_pair].
    replace (should_check_collision world_layers 1 2 world_matrix) with true by reflexivity.
    cbv [negb]. change (deref ball_then_box 0%nat) with resting_ball.
    change (deref ball_then_box 1%nat) with moving_box. rewrite Hsb.
    unfold resolve_pair. change (deref ball_then_box 0%nat) with resting_ball.
    change (deref ball_then_box 1%nat) with moving_box.
    cbv [shape velocity moving_box resting_ball].
    rewrite Rltb_true by (vec_simpl; lra). reflexivity.
Qed.

(** Two bodies at rest stay at rest through [resolve_sphere_collision]. *)
Lemma resolve_sphere_collision_at_rest pos1 mass1 radius1 pos2 mass2 radius2 restitution :
  resolve_sphere_collision pos1 vzero mass1 radius1 pos2 vzero mass2 radius2 restitution
  = (vzero, vzero).
Proof.
  unfold resolve_sphere_collision.
  destruct (Rltb _ 0.0001); [reflexivity |].
  destruct (Rltb 0 _); [reflexivity |].
  f_equal; apply V3_eq; vec_simpl; unfold Rdiv; ring.
Qed.

(** [resolve_penetration] for two overlapping spheres on the X axis, the
    first one on the left. *)
Lemma resolve_penetration_x x1 radius1 x2 radius2 :
  0.0001 <= x2 - x1 -> x2 - x1 < radius1 + radius2 ->
  resolve_penetration (mkV3 x1 0 0) radius1 (mkV3 x2 0 0) radius2
  = (mkV3 (x1 - (radius1 + radius2 - (x2 - x1)) / 2) 0 0,
     mkV3 (x2 + (radius1 + radius2 - (x2 - x1)) / 2) 0 0).
Proof.
  intros H1 H2. unfold resolve_penetration.
  replace (vsub (mkV3 x1 0 0) (mkV3 x2 0 0)) with (mkV3 (x1 - x2) 0 0) by vec_eq.
  rewrite norm_axis_x, Rabs_neg_val by lra.
  rewrite Rltb_false by lra. rewrite Rleb_false by lra.
  f_equal; apply V3_eq; vec_simpl; field; lra.
Qed.

Lemma detect_balls_hit x1 x2 :
  0.0001 < (x2 - x1) * (x2 - x1) -> (x2 - x1) * (x2 - x1) < 4 ->
  exists n, detect (ball x1) (ball x2) = (true, Some n).
Proof.
  intros H1 H2. eexists. unfold detect. cbv [shape position ball].
  apply SphereSphere.hit_regular; vec_simpl; lra.
Qed.

Lemma detect_balls_miss x1 x2 :
  4 <= (x2 - x1) * (x2 - x1) -> detect (ball x1) (ball x2) = (false, None).
Proof.
  intros H. unfold detect. cbv [shape position ball].
  apply SphereSphere.miss; vec_simpl; lra.
Qed.

(** The resolution of two overlapping balls at rest, whatever normal the
    detector reported: each is pushed back by half the penetration. *)
Lemma resolve_pair_three_balls_01 a b c restitution n :
  0.0001 <= b - a -> b - a < 2 ->
  resolve_pair restitution 0%nat 1%nat n [ball a; ball b; ball c]
  = [ball (a - (2 - (b - a)) / 2); ball (b + (2 - (b - a)) / 2); ball c].
Proof.
  intros H1 H2. unfold resolve_pair.
  cbv [deref nth shape position velocity mass ball].
  rewrite resolve_sphere_collision_at_rest.
  cbv [set_velocity store_set deref nth shape position velocity mass].
  rewrite resolve_penetration_x by lra.
  cbv [set_position store_set deref nth shape position velocity mass].
  unfold ball. repeat f_equal; lra.
Qed.

Lemma resolve_pair_three_balls_12 a b c restitution n :
  0.0001 <= c - b -> c - b < 2 ->
  resolve_pair restitution 1%nat 2%nat n [ball a; ball b; ball c]
  = [ball a; ball (b - (2 - (c - b)) / 2); ball (c + (2 - (c - b)) / 2)].
Proof.
  intros H1 H2. unfold resolve_pair.
  cbv [deref nth shape position velocity mass ball].
  rewrite resolve_sphere_collision_at_rest.
  cbv [set_velocity store_set deref nth shape position velocity mass].
  rewrite resolve_penetration_x by lra.
  cbv [set_position store_set deref nth shape position velocity mass].
  unfold ball. repeat f_equal; lra.
Qed.

(** C1 fails on the code.  [game_objects.copy()] copies the outer dict only;
    the inner dicts are shared.  In the snapshot B and C do not touch, but
    resolving (A, B) first moves B to 1.75, so (B, C) is then detected and
    resolved on the corrected position, and C is moved.  The store after the
    call is the caller's own: reading the input [game_objects] afterwards
    gives the moved bodies. *)
Theorem process_collisions_writes_through_shallow_copy :
  detect (deref three_balls 1%nat) (deref three_balls 2%nat) = (false, None)
  /\ process_collisions world_layers three_ids world_matrix 0.5 three_balls
     = (three_ids, [ball (-0.25); ball 1.675; ball 3.675])
  /\ deref [ball (-0.25); ball 1.675; ball 3.675] 0%nat <> deref three_balls 0%nat
  /\ deref [ball (-0.25); ball 1.675; ball 3.675] 2%nat <> deref three_balls 2%nat.
Proof.
  split; [| split; [| split]].
  - apply detect_balls_miss. lra.
  - unfold process_collisions. f_equal.
    cbv [pairs three_ids map app fold_left three_balls].
    (* pair (A, B) *)
    unfold process_pair at 3.
    replace (should_check_collision world_layers 1 2 world_matrix) with true by reflexivity.
    cbv [negb deref nth].
    destruct (detect_balls_hit 0 1.5) as [n1 Hn1]; [lra | lra |]. rewrite Hn1.
    rewrite resolve_pair_three_balls_01 by lra.
    (* pair (A, C) *)
    unfold process_pair at 2.
    replace (should_check_collision world_layers 1 3 world_matrix) with true by reflexivity.
    cbv [negb deref nth].
    rewrite detect_balls_miss by lra.
    (* pair (B, C) *)
    unfold process_pair.
    replace (should_check_collision world_layers 2 3 world_matrix) with true by reflexivity.
    cbv [negb deref nth].
    match goal with
    | |- context [detect (ball ?x) (ball ?y)] =>
        destruct (detect_balls_hit x y) as [n2 Hn2]; [lra | lra |]
    end.
    rewrite Hn2. rewrite resolve_pair_three_balls_12 by lra.
    unfold ball. repeat f_equal; lra.
  - cbv [deref nth three_balls ball]. intros E.
    apply (f_equal position) in E. apply (f_equal vx) in E. simpl in E. lra.
  - cbv [deref nth three_balls ball]. intros E.
    apply (f_equal position) in E. apply (f_equal vx) in E. simpl in E. lra.
Qed.

End Manager.

(** ** CollisionDetector.ray_cast *)

Module RayCast.
Import Collision.

Section Ray.
Variables ray_origin ray_direction : V3.

Lemma object_hit_raw closest_distance obj :
  object_hit ray_origin ray_direction closest_distance obj =
  match raw_hit ray_origin ray_direction obj with
  | Some (d, n) => if Rltb d closest_distance then Some (d, n) else None
  | None => None
  end.
Proof.
  destruct obj as [sphere_pos sphere_radius | box_pos box_half_size |];
    unfold object_hit, raw_hit; cbv zeta.
  - destruct (Rltb (dot _ _) 0); [reflexivity |].
    destruct (Rltb (sphere_radius * sphere_radius) _); reflexivity.
  - match goal with
    | |- context [slab_loop ?o ?d ?lo ?hi ?s0 ?axes] =>
        destruct (slab_loop o d lo hi s0 axes) as [s |]; [| reflexivity]
    end.
    destruct (if ext_ltb (Fin 0) (t_min s) then t_min s else t_max s); try reflexivity.
    destruct (Rltb 0 r); reflexivity.
  - reflexivity.
Qed.

(** A hit found under a threshold is below it. *)
Lemma object_hit_below closest_distance obj d n :
  object_hit ray_origin ray_direction closest_distance obj = Some (d, n) ->
  d < closest_distance.
Proof.
  rewrite object_hit_raw. destruct (raw_hit _ _ _) as [[d' n'] |]; [| discriminate].
  destruct (Rltb d' closest_distance) eqn:E; [| discriminate].
  intros H. injection H as -> ->. apply Rltb_iff, E.
Qed.

(** Lowering the threshold keeps exactly the hits below the new one. *)
Lemma object_hit_lower closest_distance max_distance obj d n :
  closest_distance <= max_distance ->
  (object_hit ray_origin ray_direction closest_distance obj = Some (d, n)
   <-> object_hit ray_origin ray_direction max_distance obj = Some (d, n)
       /\ d < closest_distance).
Proof.
  intros Hle. rewrite !object_hit_raw.
  destruct (raw_hit _ _ _) as [[d' n'] |]; [| split; [discriminate | intros [H _]; discriminate]].
  destruct (Rltb d' closest_distance) eqn:E1; destruct (Rltb d' max_distance) eqn:E2;
    try apply Rltb_iff in E1; try apply Rltb_iff_false in E1;
    try apply Rltb_iff in E2; try apply Rltb_iff_false in E2; try lra.
  - split; [intros H; injection H as -> ->; auto | intros [H _]; exact H].
  - split; [discriminate | intros [H Hd]; injection H as -> ->; lra].
  - split; [discriminate | intros [H _]; discriminate].
Qed.

Lemma object_hit_none_lower closest_distance max_distance obj d n :
  closest_distance <= max_distance ->
  object_hit ray_origin ray_direction closest_distance obj = None ->
  object_hit ray_origin ray_direction max_distance obj = Some (d, n) ->
  closest_distance <= d.
Proof.
  intros Hle Hnone Hsome.
  destruct (Rlt_dec d closest_distance) as [Hlt | Hge]; [| lra].
  assert (H : object_hit ray_origin ray_direction closest_distance obj = Some (d, n))
    by (apply (object_hit_lower _ max_distance); auto).
  congruence.
Qed.

Variable max_distance : R.

(** One turn of the loop keeps the invariant. *)
Lemma ray_step_closest seen st obj :
  closest_so_far ray_origin ray_direction max_distance seen st ->
  closest_so_far ray_origin ray_direction max_distance (seen ++ [obj])
                 (ray_step ray_origin ray_direction st obj).
Proof.
  destruct st as [closest_hit closest_distance]. unfold closest_so_far, ray_step.
  destruct closest_hit as [h |]; simpl fst; simpl snd.
  - intros (Hc & Hlt & Hpt & before & after & Hseen & Hh & Hbefore & Hafter).
    subst closest_distance.
    destruct (object_hit ray_origin ray_direction (hit_distance h) obj)
      as [[d n] |] eqn:E.
    + pose proof (object_hit_below _ _ _ _ E) as Hd.
      rewrite Rltb_true by exact Hd. simpl.
      apply (object_hit_lower _ max_distance) in E; [| lra]. destruct E as [E _].
      split; [reflexivity |]. split; [lra |]. split; [reflexivity |].
      exists seen, []. split; [reflexivity |]. split; [exact E |]. split.
      * intros o d' n' Hin Ho. subst seen. apply in_app_or in Hin.
        destruct Hin as [Hin | [Heq | Hin]].
        -- specialize (Hbefore _ _ _ Hin Ho). lra.
        -- subst o. rewrite Hh in Ho. injection Ho as <- <-. lra.
        -- specialize (Hafter _ _ _ Hin Ho). lra.
      * intros o d' n' [].
    + simpl. split; [reflexivity |]. split; [exact Hlt |]. split; [exact Hpt |].
      exists before, (after ++ [obj]). split.
      { subst seen. rewrite <- app_assoc. reflexivity. }
      split; [exact Hh |]. split; [exact Hbefore |].
      intros o d' n' Hin Ho. apply in_app_or in Hin. destruct Hin as [Hin | [Heq | []]].
      * exact (Hafter _ _ _ Hin Ho).
      * subst o. apply (object_hit_none_lower _ max_distance obj d' n'); auto. lra.
  - intros [Hc Hnone]. subst closest_distance.
    destruct (object_hit ray_origin ray_direction max_distance obj) as [[d n] |] eqn:E.
    + pose proof (object_hit_below _ _ _ _ E) as Hd.
      rewrite Rltb_true by exact Hd. simpl.
      split; [reflexivity |]. split; [exact Hd |]. split; [reflexivity |].
      exists seen, []. split; [reflexivity |]. split; [exact E |]. split.
      * intros o d' n' Hin Ho. rewrite (Hnone _ Hin) in Ho. discriminate.
      * intros o d' n' [].
    + simpl. split; [reflexivity |].
      intros o Hin. apply in_app_or in Hin. destruct Hin as [Hin | [Heq | []]].
      * exact (Hnone _ Hin).
      * subst o. exact E.
Qed.

Lemma ray_loop_closest objects : forall seen st,
  closest_so_far ray_origin ray_direction max_distance seen st ->
  closest_so_far ray_origin ray_direction max_distance (seen ++ objects)
                 (fold_left (ray_step ray_origin ray_direction) objects st).
Proof.
  induction objects as [| obj rest IH]; intros seen st Hinv; simpl.
  - rewrite app_nil_r. exact Hinv.
  - replace (seen ++ obj :: rest) with ((seen ++ [obj]) ++ rest)
      by (rewrite <- app_assoc; reflexivity).
    apply IH, ray_step_closest, Hinv.
Qed.

Lemma ray_cast_closest objects :
  closest_so_far ray_origin ray_direction max_distance objects
    (fold_left (ray_step ray_origin ray_direction) objects (None, max_distance)).
Proof.
  apply (ray_loop_closest objects [] (None, max_distance)).
  simpl. split; [reflexivity | intros o []].
Qed.

(** A sphere centred on the ray, [d] ahead of the origin: the near
    intersection is at distance [d - r]. *)
Lemma raw_hit_sphere_ahead center r d :
  dot ray_direction ray_direction = 1 -> 0 <= d -> 0 <= r ->
  center = vadd ray_origin (vscale ray_direction d) ->
  raw_hit ray_origin ray_direction (RaySphere center r)
  = Some (d - r,
          vdiv (vsub (vadd ray_origin (vscale ray_direction (d - r))) center) r).
Proof.
  intros Hunit Hd Hr ->. unfold raw_hit. cbv zeta.
  assert (Hp : dot (vsub (vadd ray_origin (vscale ray_direction d)) ray_origin)
                   ray_direction = d).
  { transitivity (d * dot ray_direction ray_direction); [vec_simpl; ring |].
    rewrite Hunit. ring. }
  rewrite Hp. rewrite Rltb_false by lra.
  assert (Hc : vsum (vmul
            (vsub (vadd ray_origin (vscale ray_direction d))
                  (vadd ray_origin (vscale ray_direction d)))
            (vsub (vadd ray_origin (vscale ray_direction d))
                  (vadd ray_origin (vscale ray_direction d)))) = 0)
    by (vec_simpl; ring).
  rewrite Hc. rewrite Rltb_false by nra.
  replace (r * r - 0) with (r * r) by ring. rewrite sqrt_square by exact Hr.
  reflexivity.
Qed.

Lemma ray_cast_sphere_ahead center r d :
  dot ray_direction ray_direction = 1 -> 0 <= d -> 0 <= r ->
  center = vadd ray_origin (vscale ray_direction d) ->
  (d - r < max_distance ->
   ray_cast ray_origin ray_direction max_distance [RaySphere center r]
   = (true, Some (mkHit (RaySphere center r) (d - r)
                        (vadd ray_origin (vscale ray_direction (d - r)))
                        (vdiv (vsub (vadd ray_origin (vscale ray_direction (d - r)))
                                    center) r))))
  /\ (max_distance <= d - r ->
      ray_cast ray_origin ray_direction max_distance [RaySphere center r]
      = (false, None)).
Proof.
  intros Hunit Hd Hr Hc. unfold ray_cast, fold_left, ray_step.
  rewrite object_hit_raw, (raw_hit_sphere_ahead center r d) by assumption.
  split; intros H.
  - rewrite !Rltb_true by exact H. reflexivity.
  - rewrite Rltb_false by exact H. reflexivity.
Qed.

End Ray.

(** Two unit spheres on the ray, the far one scanned first: the near one,
    scanned second, is the hit. *)
Example ray_cast_near_sphere_scanned_second :
  exists h,
    ray_cast vzero (mkV3 0 0 1) 10 [RaySphere (mkV3 0 0 9) 1; RaySphere (mkV3 0 0 3) 1]
    = (true, Some h)
    /\ hit_object h = RaySphere (mkV3 0 0 3) 1 /\ hit_distance h = 3 - 1.
Proof.
  assert (Hu : dot (mkV3 0 0 1) (mkV3 0 0 1) = 1) by (vec_simpl; lra).
  unfold ray_cast, fold_left, ray_step.
  rewrite object_hit_raw, (raw_hit_sphere_ahead _ _ (mkV3 0 0 9) 1 9);
    try assumption; try lra; try vec_eq.
  rewrite !Rltb_true by lra.
  rewrite object_hit_raw, (raw_hit_sphere_ahead _ _ (mkV3 0 0 3) 1 3);
    try assumption; try lra; try vec_eq.
  rewrite !Rltb_true by lra.
  eexists. split; [reflexivity | split; reflexivity].
Qed.

(** The slab method on the box of the specification's example: a ray from
    the origin along +Z enters the unit box centred at (0,0,5) at distance 4
    through the face of normal (0,0,-1). *)
Example ray_cast_box_ahead :
  ray_cast vzero (mkV3 0 0 1) 10 [RayBox (mkV3 0 0 5) (mkV3 1 1 1)]
  = (true, Some (mkHit (RayBox (mkV3 0 0 5) (mkV3 1 1 1)) 4
                       (vadd vzero (vscale (mkV3 0 0 1) 4)) (mkV3 0 0 (-1)))).
Proof.
  unfold ray_cast, fold_left, ray_step, object_hit, slab_loop, slab_axis.
  cbv [vget vsub vadd vx vy vz vzero].
  rewrite Rabs_R0, (Rabs_pos_val 1) by lra.
  repeat (progress (cmp; cbv [orb andb ext_ltb ext_min t_min t_max hit_normal_axis
                              hit_normal_sign])).
  cbv [fst vset vscale vx vy vz].
  replace ((5 - 1 - 0) / 1) with 4 by lra.
  reflexivity.
Qed.


(** The sphere branch has no such guard: for a ray that starts inside a
    sphere it computes a negative hit distance, here 0.5 - 1, and reports
    that sphere ahead of one met at distance 2 in front of the origin. *)
Lemma ray_cast_from_inside_sphere :
  exists h,
    ray_cast vzero (mkV3 0 0 1) 10 [RaySphere (mkV3 0 0 3) 1; RaySphere (mkV3 0 0 0.5) 1]
    = (true, Some h)
    /\ hit_object h = RaySphere (mkV3 0 0 0.5) 1 /\ hit_distance h = - (0.5).
Proof.
  assert (Hu : dot (mkV3 0 0 1) (mkV3 0 0 1) = 1) by (vec_simpl; lra).
  unfold ray_cast, fold_left, ray_step.
  rewrite object_hit_raw, (raw_hit_sphere_ahead _ _ (mkV3 0 0 3) 1 3);
    try assumption; try lra; try vec_eq.
  rewrite !Rltb_true by lra.
  rewrite object_hit_raw, (raw_hit_sphere_ahead _ _ (mkV3 0 0 0.5) 1 0.5);
    try assumption; try lra; try vec_eq.
  rewrite !Rltb_true by lra.
  eexists. split; [reflexivity | split; [reflexivity |]]. simpl. lra.
Qed.




End RayCast.

(** ** CollisionResolver.resolve_sphere_collision *)

Module Resolver.
Import Collision.

(** Centers at least 1e-4 apart are distinct. *)
Lemma norm_lower_bound a : 0.0001 <= norm a -> 0 < dot a a.
Proof.
  intros H. rewrite <- norm_sq. apply Rmult_lt_0_compat; lra.
Qed.

(** The specification's end-to-end scenario: equal masses, restitution 1,
    A moving at (1,0,0) onto B at rest on its right: A stops and B leaves at
    (1,0,0). *)
Example resolve_sphere_collision_elastic_transfer :
  resolve_sphere_collision (mkV3 1 0 0) (mkV3 1 0 0) 1 1 (mkV3 3 0 0) vzero 1 1 1
  = (vzero, mkV3 1 0 0).
Proof.
  unfold resolve_sphere_collision.
  replace (vsub (mkV3 1 0 0) (mkV3 3 0 0)) with (mkV3 (-2) 0 0) by vec_eq.
  rewrite norm_axis_x, Rabs_neg_val by lra. replace (- -2) with 2 by lra.
  rewrite Rltb_false by lra. rewrite Rltb_false by (vec_simpl; lra).
  f_equal; vec_eq.
Qed.

(** C6, as amended: for positive masses the returned velocities conserve
    total momentum; with restitution 0, centers at least 1e-4 apart and a
    pair that is not separating, the two returned velocities have equal
    components along the contact normal; a separating pair, and a pair whose
    centers are less than 1e-4 apart, is returned unchanged. *)
Theorem resolve_sphere_collision_conserves_momentum
  (pos1 velocity1 : V3) (mass1 radius1 : R) (pos2 velocity2 : V3) (mass2 radius2 : R)
  (restitution : R) :
  0 < mass1 -> 0 < mass2 ->
  vadd (vscale (fst (resolve_sphere_collision pos1 velocity1 mass1 radius1
                       pos2 velocity2 mass2 radius2 restitution)) mass1)
       (vscale (snd (resolve_sphere_collision pos1 velocity1 mass1 radius1
                       pos2 velocity2 mass2 radius2 restitution)) mass2)
  = vadd (vscale velocity1 mass1) (vscale velocity2 mass2)
  /\ (restitution = 0 ->
      0.0001 <= norm (vsub pos1 pos2) ->
      dot (vsub velocity1 velocity2)
          (vdiv (vsub pos1 pos2) (norm (vsub pos1 pos2))) <= 0 ->
      dot (fst (resolve_sphere_collision pos1 velocity1 mass1 radius1
                  pos2 velocity2 mass2 radius2 restitution))
          (vdiv (vsub pos1 pos2) (norm (vsub pos1 pos2)))
      = dot (snd (resolve_sphere_collision pos1 velocity1 mass1 radius1
                    pos2 velocity2 mass2 radius2 restitution))
            (vdiv (vsub pos1 pos2) (norm (vsub pos1 pos2))))
  /\ (0 < dot (vsub velocity1 velocity2)
              (vdiv (vsub pos1 pos2) (norm (vsub pos1 pos2))) ->
      resolve_sphere_collision pos1 velocity1 mass1 radius1
        pos2 velocity2 mass2 radius2 restitution = (velocity1, velocity2))
  /\ (norm (vsub pos1 pos2) < 0.0001 ->
      resolve_sphere_collision pos1 velocity1 mass1 radius1
        pos2 velocity2 mass2 radius2 restitution = (velocity1, velocity2)).
Proof.
  intros Hm1 Hm2. unfold resolve_sphere_collision.
  set (n := vdiv (vsub pos1 pos2) (norm (vsub pos1 pos2))).
  set (van := dot (vsub velocity1 velocity2) n).
  assert (Hinv : 0 < 1 / mass1 + 1 / mass2).
  { apply Rplus_lt_0_compat; apply Rdiv_lt_0_compat; lra. }
  destruct (Rltb (norm (vsub pos1 pos2)) 0.0001) eqn:Ed.
  - apply Rltb_iff in Ed. simpl.
    split; [reflexivity | split; [lra | split; reflexivity]].
  - apply Rltb_iff_false in Ed.
    destruct (Rltb 0 van) eqn:Ev.
    + apply Rltb_iff in Ev. simpl.
      split; [reflexivity | split; [lra | split; reflexivity]].
    + apply Rltb_iff_false in Ev. simpl fst; simpl snd. split; [| split; [| split]].
      * apply V3_eq; vec_simpl; field; lra.
      * intros He _ _.
        assert (Hnn : dot n n = 1) by (apply dot_normalized, norm_lower_bound, Ed).
        rewrite dot_vadd_l, dot_vsub_l, !dot_vscale_l, Hnn.
        subst restitution.
        assert (Hj : - (1 + 0) * van / (1 / mass1 + 1 / mass2) / mass1
                     + - (1 + 0) * van / (1 / mass1 + 1 / mass2) / mass2 = - van)
          by (field; lra).
        assert (Hvan : van = dot velocity1 n - dot velocity2 n)
          by (unfold van; apply dot_vsub_l).
        lra.
      * intros H. lra.
      * intros H. lra.
Qed.

(** Two unit masses on the X axis, the first on the right moving left onto
    the second, restitution 0: both end at speed -1/2 along the normal. *)
Lemma resolve_sphere_collision_conserves_momentum_witness :
  vadd (vscale (fst (resolve_sphere_collision (mkV3 1 0 0) (mkV3 (-1) 0 0) 1 1
                       (mkV3 0 0 0) (mkV3 0 0 0) 1 1 0)) 1)
       (vscale (snd (resolve_sphere_collision (mkV3 1 0 0) (mkV3 (-1) 0 0) 1 1
                       (mkV3 0 0 0) (mkV3 0 0 0) 1 1 0)) 1)
  = vadd (vscale (mkV3 (-1) 0 0) 1) (vscale (mkV3 0 0 0) 1)
  /\ dot (fst (resolve_sphere_collision (mkV3 1 0 0) (mkV3 (-1) 0 0) 1 1
                 (mkV3 0 0 0) (mkV3 0 0 0) 1 1 0))
         (vdiv (vsub (mkV3 1 0 0) (mkV3 0 0 0)) (norm (vsub (mkV3 1 0 0) (mkV3 0 0 0))))
     = dot (snd (resolve_sphere_collision (mkV3 1 0 0) (mkV3 (-1) 0 0) 1 1
                   (mkV3 0 0 0) (mkV3 0 0 0) 1 1 0))
           (vdiv (vsub (mkV3 1 0 0) (mkV3 0 0 0)) (norm (vsub (mkV3 1 0 0) (mkV3 0 0 0)))).
Proof.
  assert (Hn : norm (vsub (mkV3 1 0 0) (mkV3 0 0 0)) = 1).
  { replace (vsub (mkV3 1 0 0) (mkV3 0 0 0)) with (mkV3 1 0 0) by vec_eq.
    rewrite norm_axis_x. apply Rabs_pos_val. lra. }
  destruct (resolve_sphere_collision_conserves_momentum
              (mkV3 1 0 0) (mkV3 (-1) 0 0) 1 1 (mkV3 0 0 0) (mkV3 0 0 0) 1 1 0)
    as (Hmom & Hequal & _); try lra.
  split; [exact Hmom |].
  apply Hequal; [reflexivity | rewrite Hn; lra |].
  rewrite Hn. vec_simpl. lra.
Defined.

(** C6 as stated fails when the centers are closer than 1e-4: two unit
    masses 5e-5 apart on the X axis, the first moving at (-1,0,0) onto the
    second at rest, restitution 0.  The pair is approaching along the
    contact normal (1,0,0), yet both velocities are returned unchanged, with
    components -1 and 0 along that normal. *)
Lemma resolve_sphere_collision_near_coincident_unequal :
  resolve_sphere_collision (mkV3 0.00005 0 0) (mkV3 (-1) 0 0) 1 1 vzero vzero 1 1 0
  = (mkV3 (-1) 0 0, vzero)
  /\ vdiv (vsub (mkV3 0.00005 0 0) vzero) (norm (vsub (mkV3 0.00005 0 0) vzero))
     = mkV3 1 0 0
  /\ dot (vsub (mkV3 (-1) 0 0) vzero) (mkV3 1 0 0) <= 0
  /\ dot (fst (resolve_sphere_collision (mkV3 0.00005 0 0) (mkV3 (-1) 0 0) 1 1
                 vzero vzero 1 1 0))
         (vdiv (vsub (mkV3 0.00005 0 0) vzero) (norm (vsub (mkV3 0.00005 0 0) vzero)))
     <> dot (snd (resolve_sphere_collision (mkV3 0.00005 0 0) (mkV3 (-1) 0 0) 1 1
                    vzero vzero 1 1 0))
            (vdiv (vsub (mkV3 0.00005 0 0) vzero)
                  (norm (vsub (mkV3 0.00005 0 0) vzero))).
Proof.
  assert (Hn : norm (vsub (mkV3 0.00005 0 0) vzero) = 0.00005).
  { replace (vsub (mkV3 0.00005 0 0) vzero) with (mkV3 0.00005 0 0) by vec_eq.
    rewrite norm_axis_x. apply Rabs_pos_val. lra. }
  assert (Hres : resolve_sphere_collision (mkV3 0.00005 0 0) (mkV3 (-1) 0 0) 1 1
                   vzero vzero 1 1 0 = (mkV3 (-1) 0 0, vzero)).
  { unfold resolve_sphere_collision. rewrite Hn. rewrite Rltb_true by lra. reflexivity. }
  assert (Hnormal : vdiv (vsub (mkV3 0.00005 0 0) vzero)
                         (norm (vsub (mkV3 0.00005 0 0) vzero)) = mkV3 1 0 0).
  { rewrite Hn. apply V3_eq; vec_simpl; lra. }
  split; [exact Hres |]. split; [exact Hnormal |]. split; [vec_simpl; lra |].
  rewrite Hres, Hnormal. cbv [fst snd]. vec_simpl. lra.
Qed.

End Resolver.

(** ** GravityZone.modify_gravity *)

Module GravityFacts.
Import Gravity.

Lemma np_normalize_unit_y :
  np_normalize (Finite (mkV3 0 1 0)) = Finite (vdiv (mkV3 0 1 0) 1).
Proof.
  unfold np_normalize, np_div. rewrite norm_axis_y, Rabs_pos_val by lra.
  destruct (Req_dec_T 1 0); [lra | reflexivity].
Qed.

Lemma np_normalize_unit_neg_y :
  np_normalize (Finite (mkV3 0 (-1) 0)) = Finite (vdiv (mkV3 0 (-1) 0) 1).
Proof.
  unfold np_normalize, np_div. rewrite norm_axis_y, Rabs_neg_val by lra.
  replace (- -1) with 1 by lra.
  destruct (Req_dec_T 1 0); [lra | reflexivity].
Qed.

Lemma np_normalize_zero v : v = vzero -> np_normalize (Finite v) = NonFinite.
Proof.
  intros ->. unfold np_normalize, np_div.
  destruct (Req_dec_T (norm vzero) 0) as [_ | H]; [reflexivity |].
  exfalso. apply H, norm_zero_iff. reflexivity.
Qed.

(** Away from the degenerate blend the result is a finite unit vector. *)
Lemma np_normalize_finite v :
  v <> vzero -> exists u, np_normalize (Finite v) = Finite u /\ norm u = 1.
Proof.
  intros Hv. unfold np_normalize, np_div.
  destruct (Req_dec_T (norm v) 0) as [H | H].
  - exfalso. apply Hv, norm_zero_iff, H.
  - eexists. split; [reflexivity |]. apply norm_normalized.
    pose proof (dot_self_nonneg v) as Hd. pose proof (norm_sq v) as Hs.
    destruct (Req_dec_T (dot v v) 0) as [E | E]; [| lra].
    exfalso. apply H. unfold norm. rewrite E. apply sqrt_0.
Qed.

(** C8 fails on the code: the blend is normalized with no guard.  For the
    default system (direction -Y, a unit vector), a zone whose direction is
    +Y (non-zero) and a body half a radius from the zone's center, the
    influence is 0.5, above the threshold 0.05; the blend is the zero vector
    and the direction returned is not finite. *)
Theorem modify_gravity_opposite_directions_not_finite :
  gravity_direction default_system = Finite (vdiv (mkV3 0 (-1) 0) 1)
  /\ get_influence_factor upward_zone (mkV3 1 0 0) = 0.5
  /\ default_influence_threshold < get_influence_factor upward_zone (mkV3 1 0 0)
  /\ modify_gravity upward_zone default_system (mkV3 1 0 0) default_influence_threshold
     = (9.81 * 1, NonFinite).
Proof.
  assert (Hg : gravity_direction default_system = Finite (vdiv (mkV3 0 (-1) 0) 1))
    by apply np_normalize_unit_neg_y.
  assert (Hd : norm (vsub (mkV3 1 0 0) (zone_position upward_zone)) = 1).
  { cbv [zone_position upward_zone].
    replace (vsub (mkV3 1 0 0) vzero) with (mkV3 1 0 0) by vec_eq.
    rewrite norm_axis_x. apply Rabs_pos_val. lra. }
  assert (Hi : get_influence_factor upward_zone (mkV3 1 0 0) = 0.5).
  { unfold get_influence_factor, is_in_zone. rewrite Hd.
    cbv [zone_radius upward_zone]. rewrite Rleb_true by lra. simpl. lra. }
  split; [exact Hg | split; [exact Hi | split]].
  - rewrite Hi. unfold default_influence_threshold. lra.
  - unfold modify_gravity. rewrite Hi.
    cbv [is_enabled upward_zone negb zone_direction gravity_modifier].
    unfold default_influence_threshold. rewrite Rleb_false by lra.
    rewrite Hg, np_normalize_unit_y. cbv [np_scale np_add gravity_constant default_system
      GravitySystem_init].
    rewrite np_normalize_zero by vec_eq. reflexivity.
Qed.

End GravityFacts.

(** ** motion.py: OmniMovement and MotionPhysicsSystem *)

Module MotionFacts.
Import Motion.

Lemma norm_vzero : norm vzero = 0.
Proof. apply norm_zero_iff. reflexivity. Qed.

(** *** OmniMovement.process_dash *)

(** C10: a dash direction of magnitude at most 0.001 leaves the body as it
    is; a longer one adds normalized(direction) * force / mass to the
    velocity (mass 1.0 when the body has none) and changes no other field. *)
Theorem process_dash_guards_short_direction (obj : Body) (dash_direction : V3)
  (dash_force : R) :
  (norm dash_direction <= 0.001 -> process_dash obj dash_direction dash_force = obj)
  /\ (0.001 < norm dash_direction -> get (mass obj) 1 <> 0 ->
      process_dash obj dash_direction dash_force
      = mkBody (position obj)
               (vadd (velocity obj)
                     (vdiv (vscale (vdiv dash_direction (norm dash_direction)) dash_force)
                           (get (mass obj) 1)))
               (mass obj) (is_grounded obj) (has_physics obj) (has_controller obj)
               (input_direction obj) (forward_vector obj)
               (is_sprinting obj) (is_crouching obj)).
Proof.
  unfold process_dash. split.
  - intros H. rewrite Rltb_false by exact H. reflexivity.
  - intros H _. rewrite Rltb_true by exact H. reflexivity.
Qed.

(** A zero direction, and a dash of force 3 along +X on a body of mass 1.0. *)
Lemma process_dash_guards_short_direction_witness :
  process_dash drifting_body vzero 3 = drifting_body
  /\ process_dash drifting_body (mkV3 2 0 0) 3
     = mkBody (position drifting_body)
              (vadd (velocity drifting_body)
                    (vdiv (vscale (vdiv (mkV3 2 0 0) (norm (mkV3 2 0 0))) 3)
                          (get (mass drifting_body) 1)))
              (mass drifting_body) (is_grounded drifting_body) (has_physics drifting_body)
              (has_controller drifting_body) (input_direction drifting_body)
              (forward_vector drifting_body)
              (is_sprinting drifting_body) (is_crouching drifting_body).
Proof.
  split.
  - apply (process_dash_guards_short_direction drifting_body vzero 3).
    rewrite norm_vzero. lra.
  - apply (process_dash_guards_short_direction drifting_body (mkV3 2 0 0) 3).
    + rewrite norm_axis_x, Rabs_pos_val by lra. lra.
    + simpl. lra.
Defined.

(** *** OmniMovement.apply_movement_input, no input *)

(** The branch taken with zero input and a horizontal speed above 0.001:
    the horizontal velocity is scaled by [1 - deceleration * dt / speed],
    with no clamp. *)
Lemma apply_movement_input_no_input self obj delta_time is_sprinting is_crouching :
  0.001 < norm (mkV3 (vx (velocity obj)) 0 (vz (velocity obj))) ->
  get (mass obj) 1 <> 0 ->
  apply_movement_input self obj vzero delta_time is_sprinting is_crouching
  = with_velocity obj
      (mkV3 (vx (velocity obj)
             * (1 - (if negb (get (is_grounded obj) true)
                     then deceleration self * air_control self else deceleration self)
                    * delta_time / norm (mkV3 (vx (velocity obj)) 0 (vz (velocity obj)))))
            (vy (velocity obj))
            (vz (velocity obj)
             * (1 - (if negb (get (is_grounded obj) true)
                     then deceleration self * air_control self else deceleration self)
                    * delta_time / norm (mkV3 (vx (velocity obj)) 0 (vz (velocity obj)))))).
Proof.
  intros Hs Hm. unfold apply_movement_input.
  rewrite norm_vzero. rewrite (Rltb_false 0.001 0) by lra.
  rewrite (Rltb_true _ _ Hs). unfold apply_force.
  set (s := norm _) in *. set (d := if negb _ then _ else _).
  set (m := get (mass obj) 1) in *.
  f_equal.
  apply V3_eq; cbv [vset vx vy vz vadd vscale vdiv vneg];
    try reflexivity; field; split; lra.
Qed.

(** The default controller on a grounded body of mass 1.0 moving along X
    with no input, for one tick of 1/64 s. *)
Lemma no_input_tick_x x :
  0.001 < Rabs x ->
  apply_movement_input OmniMovement_init (bare_body vzero (mkV3 x 0 0)) vzero 0.015625
    false false
  = bare_body vzero (mkV3 (x * (1 - 25 * 0.015625 / Rabs x)) 0 0).
Proof.
  intros Hx.
  rewrite apply_movement_input_no_input;
    cbv [velocity mass is_grounded bare_body get negb vx vy vz];
    rewrite ?norm_axis_x; try lra.
  unfold with_velocity, bare_body. cbv [deceleration OmniMovement_init]. simpl.
  f_equal. apply V3_eq; cbv [vx vy vz]; lra.
Qed.

(** C7 fails on the code: the no-input branch has no clamp.  With the default
    controller (deceleration 25) and a tick of 1/64 s, a grounded body
    drifting at 0.125 m/s along +X comes out at 0.265625 m/s along -X: the
    horizontal speed has grown and the direction has reversed; the next
    tick sends it back to +X at 0.125 m/s, so it never settles at zero. *)
Theorem apply_movement_input_overshoots_zero :
  apply_movement_input OmniMovement_init drifting_body vzero 0.015625 false false
  = bare_body vzero (mkV3 (-0.265625) 0 0)
  /\ norm (mkV3 0.125 0 0) < norm (mkV3 (-0.265625) 0 0)
  /\ apply_movement_input OmniMovement_init (bare_body vzero (mkV3 (-0.265625) 0 0))
       vzero 0.015625 false false
     = drifting_body.
Proof.
  split; [| split].
  - unfold drifting_body. rewrite no_input_tick_x by (rewrite Rabs_pos_val; lra).
    rewrite Rabs_pos_val by lra. f_equal. apply V3_eq; cbv [vx vy vz]; lra.
  - rewrite !norm_axis_x, Rabs_pos_val, Rabs_neg_val by lra. lra.
  - unfold drifting_body. rewrite no_input_tick_x by (rewrite Rabs_neg_val; lra).
    rewrite Rabs_neg_val by lra. replace (- -0.265625) with 0.265625 by lra.
    f_equal. apply V3_eq; cbv [vx vy vz]; lra.
Qed.

(** *** MotionPhysicsSystem.update *)

Lemma update_object_disabled self obj delta_time :
  has_physics obj = Some false -> update_object self obj delta_time = obj.
Proof. intros H. unfold update_object. rewrite H. reflexivity. Qed.

Lemma update_object_enabled self obj delta_time :
  has_physics obj = None \/ has_physics obj = Some true ->
  update_object self obj delta_time =
  match get (has_controller obj) false, input_direction obj with
  | true, Some input =>
      apply_movement_input (omni_movement self)
        (process_object_motion (motion self) obj delta_time) input delta_time
        (get (is_sprinting obj) false) (get (is_crouching obj) false)
  | _, _ => process_object_motion (motion self) obj delta_time
  end.
Proof. intros [H | H]; unfold update_object; rewrite H; reflexivity. Qed.

(** C9, as amended: [update] returns one body per input body, under the same
    id and in the same order.  A body whose [has_physics] is false comes out
    untouched.  A body whose [has_physics] is true, and also a body that
    lacks the field, is run through the Motion Integrator, and additionally
    through the Omni-Movement Controller exactly when its [has_controller]
    is true and it has an [input_direction]. *)
Theorem update_skips_only_has_physics_false (self : MotionPhysicsSystem)
  (game_objects : list (Z * Body)) (delta_time : R) :
  map fst (update self game_objects delta_time) = map fst game_objects
  /\ forall i obj_id obj,
       nth_error game_objects i = Some (obj_id, obj) ->
       exists obj',
         nth_error (update self game_objects delta_time) i = Some (obj_id, obj')
         /\ (has_physics obj = Some false -> obj' = obj)
         /\ (has_physics obj = None \/ has_physics obj = Some true ->
             obj' = match get (has_controller obj) false, input_direction obj with
                    | true, Some input =>
                        apply_movement_input (omni_movement self)
                          (process_object_motion (motion self) obj delta_time)
                          input delta_time
                          (get (is_sprinting obj) false) (get (is_crouching obj) false)
                    | _, _ => process_object_motion (motion self) obj delta_time
                    end).
Proof.
  unfold update. split.
  - rewrite map_map. simpl. reflexivity.
  - intros i obj_id obj Hi. exists (update_object self obj delta_time). split.
    + rewrite nth_error_map, Hi. reflexivity.
    + split; [apply update_object_disabled | apply update_object_enabled].
Qed.

(** One body with [has_physics] false and one that lacks the field. *)
Lemma update_skips_only_has_physics_false_witness :
  (exists obj',
     nth_error (update MotionPhysicsSystem_init
                  [(1%Z, mkBody vzero (mkV3 1 0 0) None None (Some false)
                           None None None None None);
                   (2%Z, floating_body)] 1) 0
     = Some (1%Z, obj')
     /\ obj' = mkBody vzero (mkV3 1 0 0) None None (Some false) None None None None None)
  /\ (exists obj',
        nth_error (update MotionPhysicsSystem_init
                     [(1%Z, mkBody vzero (mkV3 1 0 0) None None (Some false)
                              None None None None None);
                      (2%Z, floating_body)] 1) 1
        = Some (2%Z, obj')
        /\ obj' = process_object_motion Motion_init floating_body 1).
Proof.
  split.
  - destruct (update_skips_only_has_physics_false MotionPhysicsSystem_init
                [(1%Z, mkBody vzero (mkV3 1 0 0) None None (Some false)
                         None None None None None);
                 (2%Z, floating_body)] 1) as [_ H].
    destruct (H 0%nat 1%Z _ eq_refl) as (obj' & Hn & Hoff & _).
    exists obj'. split; [exact Hn | apply Hoff; reflexivity].
  - destruct (update_skips_only_has_physics_false MotionPhysicsSystem_init
                [(1%Z, mkBody vzero (mkV3 1 0 0) None None (Some false)
                         None None None None None);
                 (2%Z, floating_body)] 1) as [_ H].
    destruct (H 1%nat 2%Z _ eq_refl) as (obj' & Hn & _ & Hon).
    exists obj'. split; [exact Hn | apply Hon; left; reflexivity].
Defined.

(** The integrator on the body at rest in the air, for a tick of 1 s. *)
Lemma apply_gravity_floating :
  apply_gravity Motion_init vzero false 1 = mkV3 0 (-9.81) 0.
Proof. unfold apply_gravity. cbv [negb gravity Motion_init]. vec_eq. Qed.

Lemma apply_air_resistance_falling :
  apply_air_resistance Motion_init (mkV3 0 (-9.81) 0) 1 = mkV3 0 (-9.7119) 0.
Proof.
  unfold apply_air_resistance. cbv [air_resistance Motion_init].
  replace (vadd (mkV3 0 (-9.81) 0) (vscale (vscale (mkV3 0 (-9.81) 0) (- (0.01))) 1))
    with (mkV3 0 (-9.7119) 0) by vec_eq.
  rewrite !norm_axis_y, !Rabs_neg_val by lra.
  rewrite Rltb_true by lra. rewrite Rltb_false by lra.
  rewrite Rltb_false by (vec_simpl; lra). reflexivity.
Qed.

Lemma process_object_motion_floating :
  process_object_motion Motion_init floating_body 1
  = bare_body (mkV3 0 (-9.7119) 0) (mkV3 0 (-9.7119) 0).
Proof.
  unfold process_object_motion.
  cbv [with_velocity with_position velocity position is_grounded floating_body
       bare_body get].
  rewrite apply_gravity_floating, apply_air_resistance_falling.
  unfold apply_ground_friction, update_position. cbv [negb].
  f_equal. vec_eq.
Qed.

(** C9 as stated fails: a body that lacks the [has_physics] field is not
    passed through.  [obj.get('has_physics', True)] makes it physics-enabled:
    the body at rest in the air comes out falling. *)
Lemma update_integrates_body_lacking_has_physics :
  has_physics floating_body = None
  /\ update MotionPhysicsSystem_init [(1%Z, floating_body)] 1
     = [(1%Z, bare_body (mkV3 0 (-9.7119) 0) (mkV3 0 (-9.7119) 0))]
  /\ bare_body (mkV3 0 (-9.7119) 0) (mkV3 0 (-9.7119) 0) <> floating_body.
Proof.
  split; [reflexivity | split].
  - unfold update, map, fst, snd. rewrite update_object_enabled by (left; reflexivity).
    cbv [has_controller floating_body bare_body get motion MotionPhysicsSystem_init].
    fold (bare_body vzero vzero). fold floating_body.
    rewrite process_object_motion_floating. reflexivity.
  - intros E. apply (f_equal velocity) in E. apply (f_equal vy) in E.
    cbv [velocity floating_body bare_body vy vzero] in E. lra.
Qed.

End MotionFacts.

(** ** CollisionManager: layer management *)

Module LayerOps.
Import Collision.

Lemma lookup_In_key {A : Type} name (d : list (string * A)) :
  lookup name d = None <-> forall v, ~ In (name, v) d.
Proof.
  induction d as [| [k v] rest IH]; simpl.
  - split; [intros _ v [] | reflexivity].
  - destruct (String.eqb name k) eqn:E.
    + apply String.eqb_eq in E. subst k. split; [discriminate |].
      intros H. exfalso. apply (H v). left. reflexivity.
    + apply String.eqb_neq in E. rewrite IH. split.
      * intros H v' [Heq | Hin]; [injection Heq as -> _; congruence | exact (H v' Hin)].
      * intros H v' Hin. apply (H v'). right. exact Hin.
Qed.

Lemma set_add_In x y s : In y (set_add x s) <-> y = x \/ In y s.
Proof.
  unfold set_add. destruct (mem_id x s) eqn:E.
  - apply LayerFilter.mem_id_In in E. split; [auto | intros [-> | H]; assumption].
  - rewrite in_app_iff. simpl. split.
    + intros [H | [H | []]]; auto.
    + intros [-> | H]; auto.
Qed.

Lemma set_discard_In x y s : In y (set_discard x s) <-> In y s /\ y <> x.
Proof.
  unfold set_discard. rewrite filter_In. split.
  - intros [H E]. split; [exact H |]. intros ->. rewrite Z.eqb_refl in E. discriminate.
  - intros [H N]. split; [exact H |]. apply negb_true_iff, Z.eqb_neq. congruence.
Qed.

(** Membership after updating the entries of one layer with [f]. *)
Lemma layers_of_map_entry (f : list Z -> list Z) layer_name collision_layers obj_id layer :
  In layer (layers_of
              (map (fun e => if String.eqb layer_name (fst e)
                             then (fst e, f (snd e)) else e) collision_layers) obj_id)
  <-> exists ids, In (layer, ids) collision_layers
                  /\ In obj_id (if String.eqb layer_name layer then f ids else ids).
Proof.
  rewrite LayerFilter.in_layers_of. split.
  - intros [ids' [Hin Hid]]. apply in_map_iff in Hin. destruct Hin as [[k ids] [E Hin]].
    simpl in E. destruct (String.eqb layer_name k) eqn:Ek.
    + injection E as <- <-. exists ids. rewrite Ek. split; assumption.
    + injection E as <- <-. exists ids. rewrite Ek. split; assumption.
  - intros [ids [Hin Hid]].
    exists (if String.eqb layer_name layer then f ids else ids). split; [| exact Hid].
    apply in_map_iff. exists (layer, ids). simpl. split; [| exact Hin].
    destruct (String.eqb layer_name layer); reflexivity.
Qed.

Lemma add_to_layer_adds_one_membership_aux collision_layers object_id layer_name obj layer :
  In layer (layers_of (add_to_layer collision_layers object_id layer_name) obj)
  <-> (obj = object_id /\ layer = layer_name)
      \/ In layer (layers_of collision_layers obj).
Proof.
  unfold add_to_layer. rewrite layers_of_map_entry. unfold has_layer.
  destruct (lookup layer_name collision_layers) as [ids0 |] eqn:El; cbv [negb].
  - split.
    + intros [ids [Hin Hid]]. destruct (String.eqb layer_name layer) eqn:E.
      * apply String.eqb_eq in E. subst layer. apply set_add_In in Hid.
        destruct Hid as [-> | Hid]; [left; auto | right].
        apply LayerFilter.in_layers_of. exists ids. auto.
      * right. apply LayerFilter.in_layers_of. exists ids. auto.
    + intros [[-> ->] | H].
      * assert (Hex : exists ids, In (layer_name, ids) collision_layers).
        { destruct (lookup_In_key layer_name collision_layers) as [_ Hn].
          clear - El. induction collision_layers as [| [k v] rest IH]; simpl in *;
            [discriminate |].
          destruct (String.eqb layer_name k) eqn:E.
          - apply String.eqb_eq in E. subst k. exists v. left. reflexivity.
          - destruct (IH El) as [ids H]. exists ids. right. exact H. }
        destruct Hex as [ids Hin]. exists ids. rewrite String.eqb_refl.
        split; [exact Hin | apply set_add_In; left; reflexivity].
      * apply LayerFilter.in_layers_of in H. destruct H as [ids [Hin Hid]].
        exists ids. split; [exact Hin |].
        destruct (String.eqb layer_name layer); [apply set_add_In; right |]; exact Hid.
  - split.
    + intros [ids [Hin Hid]]. apply in_app_iff in Hin. destruct Hin as [Hin | [E | []]].
      * destruct (String.eqb layer_name layer) eqn:E.
        -- apply String.eqb_eq in E. subst layer.
           exfalso. apply (proj1 (lookup_In_key layer_name collision_layers) El ids Hin).
        -- right. apply LayerFilter.in_layers_of. exists ids. auto.
      * injection E as <- <-. rewrite String.eqb_refl in Hid. apply set_add_In in Hid.
        destruct Hid as [-> | []]. left. auto.
    + intros [[-> ->] | H].
      * exists []. split; [apply in_app_iff; right; left; reflexivity |].
        rewrite String.eqb_refl. apply set_add_In. left. reflexivity.
      * apply LayerFilter.in_layers_of in H. destruct H as [ids [Hin Hid]].
        exists ids. split; [apply in_app_iff; left; exact Hin |].
        destruct (String.eqb layer_name layer) eqn:E; [| exact Hid].
        apply String.eqb_eq in E. subst layer.
        exfalso. apply (proj1 (lookup_In_key layer_name collision_layers) El ids Hin).
Qed.

Lemma remove_from_layer_removes_one_membership_aux
  collision_layers object_id layer_name obj layer :
  In layer (layers_of (remove_from_layer collision_layers object_id layer_name) obj)
  <-> In layer (layers_of collision_layers obj)
      /\ ~ (obj = object_id /\ layer = layer_name).
Proof.
  unfold remove_from_layer, has_layer.
  destruct (lookup layer_name collision_layers) as [ids0 |] eqn:El.
  - rewrite layers_of_map_entry, LayerFilter.in_layers_of. split.
    + intros [ids [Hin Hid]]. destruct (String.eqb layer_name layer) eqn:E.
      * apply String.eqb_eq in E. subst layer. apply set_discard_In in Hid.
        destruct Hid as [Hid Hne]. split; [exists ids; auto | intros [-> _]; congruence].
      * apply String.eqb_neq in E. split; [exists ids; auto | intros [_ ->]; congruence].
    + intros [[ids [Hin Hid]] Hne]. exists ids. split; [exact Hin |].
      destruct (String.eqb layer_name layer) eqn:E; [| exact Hid].
      apply String.eqb_eq in E. subst layer. apply set_discard_In. split; [exact Hid |].
      intros ->. apply Hne. auto.
  - rewrite LayerFilter.in_layers_of. split.
    + intros [ids [Hin Hid]]. split; [exists ids; auto |].
      intros [_ ->]. apply (proj1 (lookup_In_key layer_name collision_layers) El ids Hin).
    + intros [H _]. exact H.
Qed.

(** [add_to_layer] adds exactly one membership and [remove_from_layer]
    removes exactly one: after adding, an object is in a layer iff it is the
    object added to that layer or it was in the layer before; after
    removing, iff it was in the layer before and is not the object removed
    from that layer. *)
Theorem layer_membership_after_add_and_remove
  collision_layers object_id layer_name obj layer :
  (In layer (layers_of (add_to_layer collision_layers object_id layer_name) obj)
   <-> (obj = object_id /\ layer = layer_name)
       \/ In layer (layers_of collision_layers obj))
  /\ (In layer (layers_of (remove_from_layer collision_layers object_id layer_name) obj)
      <-> In layer (layers_of collision_layers obj)
          /\ ~ (obj = object_id /\ layer = layer_name)).
Proof.
  split.
  - apply add_to_layer_adds_one_membership_aux.
  - apply remove_from_layer_removes_one_membership_aux.
Qed.

(** The filter in terms of memberships. *)
Lemma should_check_iff_layers collision_layers a b collision_matrix :
  should_check_collision collision_layers a b collision_matrix = true
  <-> exists layer_a layer_b allowed,
        In layer_a (layers_of collision_layers a)
        /\ In layer_b (layers_of collision_layers b)
        /\ lookup layer_a collision_matrix = Some allowed /\ In layer_b allowed.
Proof.
  unfold should_check_collision. rewrite existsb_exists. split.
  - intros [layer_a [Ha H]].
    destruct (lookup layer_a collision_matrix) as [allowed |] eqn:El; [| discriminate].
    apply existsb_exists in H. destruct H as [layer_b [Hb Hal]].
    exists layer_a, layer_b, allowed. repeat split; try assumption.
    apply LayerFilter.mem_layer_In, Hal.
  - intros (layer_a & layer_b & allowed & Ha & Hb & El & Hal).
    exists layer_a. split; [exact Ha |]. rewrite El. apply existsb_exists.
    exists layer_b. split; [exact Hb | apply LayerFilter.mem_layer_In, Hal].
Qed.

Lemma bool_eq_iff (x y : bool) : (x = true <-> y = true) -> x = y.
Proof.
  destruct x, y; intros [H1 H2]; try reflexivity.
  - symmetry. apply H1. reflexivity.
  - apply H2. reflexivity.
Qed.

(** An object that is in no layer is never checked against anything,
    whatever the matrix says and whichever side of the pair it is on. *)
Theorem should_check_collision_unlayered_object collision_layers a b collision_matrix :
  layers_of collision_layers a = [] ->
  should_check_collision collision_layers a b collision_matrix = false
  /\ should_check_collision collision_layers b a collision_matrix = false.
Proof.
  intros Ha. split.
  - unfold should_check_collision. rewrite Ha. reflexivity.
  - destruct (should_check_collision collision_layers b a collision_matrix) eqn:E;
      [| reflexivity].
    apply should_check_iff_layers in E.
    destruct E as (layer_b & layer_a & allowed & _ & Hin & _). rewrite Ha in Hin.
    destruct Hin.
Qed.

Lemma should_check_collision_unlayered_object_witness :
  should_check_collision [("player", [1%Z])] 7 1 [("player", ["player"])] = false
  /\ should_check_collision [("player", [1%Z])] 1 7 [("player", ["player"])] = false.
Proof.
  apply (should_check_collision_unlayered_object [("player", [1%Z])] 7 1
           [("player", ["player"])]).
  reflexivity.
Defined.

(** Putting [a] in [layer_a] and [b] in [layer_b] makes the pair (a, b)
    checked as soon as the matrix lists [layer_b] under [layer_a]. *)
Theorem add_to_layer_enables_check collision_layers a layer_a b layer_b
  collision_matrix allowed :
  lookup layer_a collision_matrix = Some allowed -> In layer_b allowed ->
  should_check_collision
    (add_to_layer (add_to_layer collision_layers a layer_a) b layer_b)
    a b collision_matrix = true.
Proof.
  intros El Hal. apply should_check_iff_layers.
  exists layer_a, layer_b, allowed. repeat split; try assumption.
  - apply add_to_layer_adds_one_membership_aux. right.
    apply add_to_layer_adds_one_membership_aux. left. auto.
  - apply add_to_layer_adds_one_membership_aux. left. auto.
Qed.

Lemma add_to_layer_enables_check_witness :
  should_check_collision (add_to_layer (add_to_layer [] 1 "player") 2 "enemy") 1 2
    [("player", ["enemy"])] = true.
Proof.
  apply (add_to_layer_enables_check [] 1 "player" 2 "enemy"
           [("player", ["enemy"])] ["enemy"]).
  - reflexivity.
  - left. reflexivity.
Defined.

(** Adding a third object to a layer, or removing it from one, does not
    change whether two other objects are checked. *)
Theorem layer_change_of_other_object_keeps_check
  collision_layers c layer_name a b collision_matrix :
  c <> a -> c <> b ->
  should_check_collision (add_to_layer collision_layers c layer_name) a b collision_matrix
  = should_check_collision collision_layers a b collision_matrix
  /\ should_check_collision (remove_from_layer collision_layers c layer_name) a b
       collision_matrix
     = should_check_collision collision_layers a b collision_matrix.
Proof.
  intros Ha Hb.
  assert (Hadd : forall x layer, x <> c ->
            (In layer (layers_of (add_to_layer collision_layers c layer_name) x)
             <-> In layer (layers_of collision_layers x))).
  { intros x layer Hx. rewrite add_to_layer_adds_one_membership_aux. split.
    - intros [[E _] | H]; [congruence | exact H].
    - auto. }
  assert (Hrem : forall x layer, x <> c ->
            (In layer (layers_of (remove_from_layer collision_layers c layer_name) x)
             <-> In layer (layers_of collision_layers x))).
  { intros x layer Hx. rewrite remove_from_layer_removes_one_membership_aux. split.
    - intros [H _]. exact H.
    - intros H. split; [exact H | intros [E _]; congruence]. }
  split; apply bool_eq_iff; rewrite !should_check_iff_layers; split;
    intros (la & lb & allowed & H1 & H2 & H3 & H4); exists la, lb, allowed;
    repeat split; try assumption;
    first [ apply Hadd; [congruence | assumption]
          | apply Hrem; [congruence | assumption] ].
Qed.

Lemma layer_change_of_other_object_keeps_check_witness :
  should_check_collision (add_to_layer [("player", [1%Z; 2%Z])] 3 "player") 1 2
    [("player", ["player"])]
  = should_check_collision [("player", [1%Z; 2%Z])] 1 2 [("player", ["player"])]
  /\ should_check_collision (remove_from_layer [("player", [1%Z; 2%Z])] 3 "player") 1 2
       [("player", ["player"])]
     = should_check_collision [("player", [1%Z; 2%Z])] 1 2 [("player", ["player"])].
Proof.
  apply (layer_change_of_other_object_keeps_check [("player", [1%Z; 2%Z])] 3 "player"
           1 2 [("player", ["player"])]); lia.
Defined.

End LayerOps.

(** ** CollisionManager.process_collisions: what a pass never changes *)

Module ManagerFrame.
Import Collision.

Lemma same_frame_refl st : same_frame st st.
Proof. split; [reflexivity | intros r; split; reflexivity]. Qed.

Lemma same_frame_trans st1 st2 st3 :
  same_frame st1 st2 -> same_frame st2 st3 -> same_frame st1 st3.
Proof.
  intros [L1 H1] [L2 H2]. split; [congruence |].
  intros r. destruct (H1 r), (H2 r). split; congruence.
Qed.

Lemma store_set_frame st : forall r b,
  shape b = shape (deref st r) -> mass b = mass (deref st r) ->
  same_frame st (store_set st r b).
Proof.
  induction st as [| x rest IH]; intros r b Hs Hm.
  - apply same_frame_refl.
  - destruct r as [| r]; simpl.
    + split; [reflexivity |]. intros [| r']; unfold deref in *; simpl in *; auto.
    + destruct (IH r b Hs Hm) as [L H]. split; [simpl; congruence |].
      intros [| r']; unfold deref in *; simpl; auto.
Qed.

Lemma set_velocity_frame st r v : same_frame st (set_velocity st r v).
Proof. apply store_set_frame; reflexivity. Qed.

Lemma set_position_frame st r p : same_frame st (set_position st r p).
Proof. apply store_set_frame; reflexivity. Qed.

Lemma resolve_pair_frame restitution r1 r2 n st :
  same_frame st (resolve_pair restitution r1 r2 n st).
Proof.
  unfold resolve_pair.
  destruct (shape (deref st r1)) eqn:E1; destruct (shape (deref st r2)) eqn:E2;
    try (destruct (Rltb 0 _); [apply same_frame_refl |];
         repeat (eapply same_frame_trans;
                 [| first [apply set_position_frame | apply set_velocity_frame]]);
         apply same_frame_refl).
  destruct (resolve_sphere_collision _ _ _ _ _ _ _ _ _) as [nv1 nv2].
  destruct (resolve_penetration _ _ _ _) as [np1 np2].
  repeat (eapply same_frame_trans;
          [| first [apply set_position_frame | apply set_velocity_frame]]).
  apply same_frame_refl.
Qed.

Lemma process_pair_frame collision_layers collision_matrix restitution st p :
  same_frame st (process_pair collision_layers collision_matrix restitution st p).
Proof.
  destruct p as [[id1 r1] [id2 r2]]. unfold process_pair.
  destruct (negb _); [apply same_frame_refl |].
  destruct (detect _ _) as [[|] [n |]]; try apply same_frame_refl.
  apply resolve_pair_frame.
Qed.

Lemma process_pairs_frame collision_layers collision_matrix restitution ps : forall st,
  same_frame st
    (fold_left (process_pair collision_layers collision_matrix restitution) ps st).
Proof.
  induction ps as [| p rest IH]; intros st; simpl.
  - apply same_frame_refl.
  - eapply same_frame_trans; [apply process_pair_frame | apply IH].
Qed.

(** A pass returns the dict it was given (same ids, same inner dicts) and
    only ever writes positions and velocities: no object is added or
    dropped, and every object keeps its shape, shape parameter and mass. *)
Theorem process_collisions_keeps_shapes_and_masses
  collision_layers game_objects collision_matrix restitution st :
  fst (process_collisions collision_layers game_objects collision_matrix restitution st)
    = game_objects
  /\ List.length (snd (process_collisions collision_layers game_objects
                         collision_matrix restitution st)) = List.length st
  /\ forall r,
       shape (deref (snd (process_collisions collision_layers game_objects
                            collision_matrix restitution st)) r) = shape (deref st r)
       /\ mass (deref (snd (process_collisions collision_layers game_objects
                              collision_matrix restitution st)) r) = mass (deref st r).
Proof.
  unfold process_collisions. simpl. split; [reflexivity |].
  apply process_pairs_frame.
Qed.

Lemma process_pairs_no_contact collision_layers collision_matrix restitution st ps :
  (forall id1 r1 id2 r2, In ((id1, r1), (id2, r2)) ps ->
     should_check_collision collision_layers id1 id2 collision_matrix = false
     \/ fst (detect (deref st r1) (deref st r2)) = false) ->
  fold_left (process_pair collision_layers collision_matrix restitution) ps st = st.
Proof.
  induction ps as [| [[id1 r1] [id2 r2]] rest IH]; intros H; cbn [fold_left];
    [reflexivity |].
  assert (Hp : process_pair collision_layers collision_matrix restitution st
                 ((id1, r1), (id2, r2)) = st).
  { unfold process_pair. destruct (H id1 r1 id2 r2 (or_introl eq_refl)) as [E | E].
    - rewrite E. reflexivity.
    - destruct (negb _); [reflexivity |].
      destruct (detect _ _) as [[|] [n |]]; simpl in E; try discriminate; reflexivity. }
  rewrite Hp. apply IH. intros. apply H. right. assumption.
Qed.

(** When every pair is either filtered out by the layers or not in contact,
    the pass changes nothing. *)
Theorem process_collisions_without_contact_is_identity
  collision_layers game_objects collision_matrix restitution st :
  (forall id1 r1 id2 r2, In ((id1, r1), (id2, r2)) (pairs game_objects) ->
     should_check_collision collision_layers id1 id2 collision_matrix = false
     \/ fst (detect (deref st r1) (deref st r2)) = false) ->
  process_collisions collision_layers game_objects collision_matrix restitution st
  = (game_objects, st).
Proof.
  intros H. unfold process_collisions. f_equal. apply process_pairs_no_contact, H.
Qed.

(** The three balls with an empty collision matrix. *)
Lemma process_collisions_without_contact_is_identity_witness :
  process_collisions world_layers three_ids [] 0.5 three_balls = (three_ids, three_balls).
Proof.
  apply (process_collisions_without_contact_is_identity world_layers three_ids [] 0.5
           three_balls).
  intros id1 r1 id2 r2 Hin. left.
  destruct (should_check_collision world_layers id1 id2 []) eqn:E; [| reflexivity].
  apply LayerOps.should_check_iff_layers in E.
  destruct E as (la & lb & allowed & _ & _ & El & _). discriminate El.
Defined.

End ManagerFrame.

(** ** More on vectors *)

Module VecMore.

Lemma Rdiv_nonneg x y : 0 <= x -> 0 < y -> 0 <= x / y.
Proof. intros Hx Hy. apply Rle_mult_inv_pos; assumption. Qed.

Lemma Rdiv_le_one x y : 0 < y -> x <= y -> x / y <= 1.
Proof.
  intros Hy Hxy. apply (Rmult_le_reg_r y); [exact Hy |]. unfold Rdiv.
  rewrite Rmult_assoc, Rinv_l by lra. lra.
Qed.

Lemma norm_axis_z z : norm (mkV3 0 0 z) = Rabs z.
Proof.
  unfold norm, dot; simpl.
  replace (0 * 0 + 0 * 0 + z * z) with (Rsqr z) by (unfold Rsqr; lra).
  apply sqrt_Rsqr_abs.
Qed.

Lemma norm_vscale a s : norm (vscale a s) = Rabs s * norm a.
Proof.
  unfold norm.
  replace (dot (vscale a s) (vscale a s)) with (Rsqr s * dot a a)
    by (unfold dot, vscale, Rsqr; simpl; ring).
  rewrite sqrt_mult; [| apply Rle_0_sqr | apply dot_self_nonneg].
  rewrite sqrt_Rsqr_abs. reflexivity.
Qed.

Lemma vdiv_vscale a s : vdiv a s = vscale a (/ s).
Proof. reflexivity. Qed.

Lemma norm_vdiv a s : norm (vdiv a s) = norm a / Rabs s.
Proof.
  rewrite vdiv_vscale, norm_vscale.
  destruct (Req_dec_T s 0) as [-> | Hs].
  - rewrite Rinv_0, Rabs_R0. unfold Rdiv. rewrite Rinv_0. ring.
  - rewrite Rabs_inv. unfold Rdiv. ring.
Qed.

Lemma norm_vneg a : norm (vneg a) = norm a.
Proof. unfold norm, dot, vneg; simpl. f_equal. ring. Qed.

Lemma vneg_vdiv a s : vneg (vdiv a s) = vdiv (vneg a) s.
Proof. apply V3_eq; vec_simpl; unfold Rdiv; ring. Qed.

Lemma vsub_swap a b : vsub a b = vneg (vsub b a).
Proof. apply V3_eq; vec_simpl; ring. Qed.

Lemma dot_vneg a : dot (vneg a) (vneg a) = dot a a.
Proof. unfold dot, vneg; simpl. ring. Qed.

End VecMore.
Import VecMore.

(** ** CollisionDetector: the three shape tests *)

Module Detectors.
Import Collision.

(** *** check_sphere_sphere *)

(** Swapping the two spheres keeps the verdict and, away from the
    coincident-centers fallback, reverses the normal. *)
Theorem check_sphere_sphere_swap pos1 radius1 pos2 radius2 :
  fst (check_sphere_sphere pos2 radius2 pos1 radius1)
    = fst (check_sphere_sphere pos1 radius1 pos2 radius2)
  /\ forall n, 0.0001 < dot (vsub pos2 pos1) (vsub pos2 pos1) ->
       check_sphere_sphere pos1 radius1 pos2 radius2 = (true, Some n) ->
       check_sphere_sphere pos2 radius2 pos1 radius1 = (true, Some (vneg n)).
Proof.
  assert (Hd : dot (vsub pos1 pos2) (vsub pos1 pos2) = dot (vsub pos2 pos1) (vsub pos2 pos1))
    by (unfold dot, vsub; simpl; ring).
  assert (Hr : (radius2 + radius1) * (radius2 + radius1)
               = (radius1 + radius2) * (radius1 + radius2)) by ring.
  split.
  - apply LayerOps.bool_eq_iff. rewrite !SphereSphere.hit_iff, Hd, Hr. tauto.
  - intros n Hreg Hhit.
    assert (Hlt : dot (vsub pos2 pos1) (vsub pos2 pos1)
                  < (radius1 + radius2) * (radius1 + radius2)).
    { apply SphereSphere.hit_iff. rewrite Hhit. reflexivity. }
    rewrite SphereSphere.hit_regular in Hhit by assumption.
    injection Hhit as <-.
    rewrite SphereSphere.hit_regular by (rewrite ?Hd, ?Hr; assumption).
    rewrite vneg_vdiv, <- vsub_swap. unfold norm. rewrite Hd. reflexivity.
Qed.

Lemma check_sphere_sphere_swap_witness :
  check_sphere_sphere (mkV3 2 0 0) 1.5 (mkV3 0 0 0) 1.5
  = (true, Some (vneg (mkV3 1 0 0))).
Proof.
  apply (check_sphere_sphere_swap (mkV3 0 0 0) 1.5 (mkV3 2 0 0) 1.5).
  - vec_simpl. lra.
  - rewrite SphereSphere.hit_regular by (vec_simpl; lra).
    replace (vsub (mkV3 2 0 0) (mkV3 0 0 0)) with (mkV3 2 0 0) by vec_eq.
    rewrite norm_axis_x, Rabs_pos_val by lra. do 2 f_equal. vec_eq.
Defined.

(** *** check_box_box *)

Lemma axis_overlap_abs p1 h1 p2 h2 :
  (p2 - h2 <= p1 + h1 /\ p1 - h1 <= p2 + h2) <-> Rabs (p1 - p2) <= h1 + h2.
Proof.
  unfold Rabs. destruct (Rcase_abs (p1 - p2)); lra.
Qed.

(** Two boxes are reported as colliding iff on every axis the centers are at
    most the sum of the half sizes apart: boxes that merely touch collide. *)
Theorem check_box_box_hit_iff_overlap pos1 half_size1 pos2 half_size2 :
  fst (check_box_box pos1 half_size1 pos2 half_size2) = true
  <-> Rabs (vx pos1 - vx pos2) <= vx half_size1 + vx half_size2
      /\ Rabs (vy pos1 - vy pos2) <= vy half_size1 + vy half_size2
      /\ Rabs (vz pos1 - vz pos2) <= vz half_size1 + vz half_size2.
Proof.
  rewrite <- !axis_overlap_abs. unfold check_box_box.
  destruct (_ && _ && _) eqn:E; simpl.
  - rewrite !andb_true_iff, !Rleb_iff in E. tauto.
  - split; [discriminate |]. intros H.
    rewrite !andb_false_iff, !Rleb_iff_false in E. lra.
Qed.

(** On a hit the normal is a unit vector along a coordinate axis, and the
    penetration depth on that axis is the least of the three. *)
Theorem check_box_box_normal_on_least_depth_axis pos1 half_size1 pos2 half_size2 :
  fst (check_box_box pos1 half_size1 pos2 half_size2) = true ->
  exists n,
    check_box_box pos1 half_size1 pos2 half_size2 = (true, Some n)
    /\ norm n = 1
    /\ (((n = mkV3 1 0 0 \/ n = mkV3 (-1) 0 0)
         /\ axis_depth (vx pos1) (vx half_size1) (vx pos2) (vx half_size2)
            <= axis_depth (vy pos1) (vy half_size1) (vy pos2) (vy half_size2)
         /\ axis_depth (vx pos1) (vx half_size1) (vx pos2) (vx half_size2)
            <= axis_depth (vz pos1) (vz half_size1) (vz pos2) (vz half_size2))
        \/ ((n = mkV3 0 1 0 \/ n = mkV3 0 (-1) 0)
            /\ axis_depth (vy pos1) (vy half_size1) (vy pos2) (vy half_size2)
               <= axis_depth (vx pos1) (vx half_size1) (vx pos2) (vx half_size2)
            /\ axis_depth (vy pos1) (vy half_size1) (vy pos2) (vy half_size2)
               <= axis_depth (vz pos1) (vz half_size1) (vz pos2) (vz half_size2))
        \/ ((n = mkV3 0 0 1 \/ n = mkV3 0 0 (-1))
            /\ axis_depth (vz pos1) (vz half_size1) (vz pos2) (vz half_size2)
               <= axis_depth (vx pos1) (vx half_size1) (vx pos2) (vx half_size2)
            /\ axis_depth (vz pos1) (vz half_size1) (vz pos2) (vz half_size2)
               <= axis_depth (vy pos1) (vy half_size1) (vy pos2) (vy half_size2))).
Proof.
  unfold check_box_box.
  fold (axis_depth (vx pos1) (vx half_size1) (vx pos2) (vx half_size2)).
  fold (axis_depth (vy pos1) (vy half_size1) (vy pos2) (vy half_size2)).
  fold (axis_depth (vz pos1) (vz half_size1) (vz pos2) (vz half_size2)).
  set (dx := axis_depth (vx pos1) _ _ _). set (dy := axis_depth (vy pos1) _ _ _).
  set (dz := axis_depth (vz pos1) _ _ _).
  destruct (_ && _ && _); simpl; [intros _ | discriminate].
  eexists. split; [reflexivity |].
  destruct (Rleb dx dy && Rleb dx dz) eqn:Ex.
  - rewrite andb_true_iff, !Rleb_iff in Ex.
    destruct (Rltb (vx pos1) (vx pos2)); (split;
      [rewrite norm_axis_x; first [apply Rabs_pos_val | rewrite Rabs_neg_val]; lra
      | left; split; [auto | exact Ex]]).
  - rewrite andb_false_iff, !Rleb_iff_false in Ex.
    destruct (Rleb dy dx && Rleb dy dz) eqn:Ey.
    + rewrite andb_true_iff, !Rleb_iff in Ey.
      destruct (Rltb (vy pos1) (vy pos2)); (split;
        [rewrite norm_axis_y; first [apply Rabs_pos_val | rewrite Rabs_neg_val]; lra
        | right; left; split; [auto | exact Ey]]).
    + rewrite andb_false_iff, !Rleb_iff_false in Ey.
      destruct (Rltb (vz pos1) (vz pos2)); (split;
        [rewrite norm_axis_z; first [apply Rabs_pos_val | rewrite Rabs_neg_val]; lra
        | right; right; split; [auto | lra]]).
Qed.

(** Two unit boxes overlapping by 0.5 on X and fully on Y and Z. *)
Lemma check_box_box_normal_on_least_depth_axis_witness :
  exists n,
    check_box_box vzero (mkV3 1 1 1) (mkV3 1.5 0 0) (mkV3 1 1 1) = (true, Some n)
    /\ norm n = 1.
Proof.
  destruct (check_box_box_normal_on_least_depth_axis
              vzero (mkV3 1 1 1) (mkV3 1.5 0 0) (mkV3 1 1 1)) as (n & Hn & Hu & _).
  - unfold check_box_box. cbv [vx vy vz vzero]. cmp. reflexivity.
  - exists n. split; assumption.
Defined.

(** *** check_sphere_box *)

Lemma list_min_spec l : forall d,
  (list_min d l = d \/ In (list_min d l) l)
  /\ list_min d l <= d
  /\ forall x, In x l -> list_min d l <= x.
Proof.
  induction l as [| y rest IH]; intros d; simpl.
  - split; [left; reflexivity | split; [lra | intros x []]].
  - destruct (Rltb y d) eqn:E.
    + apply Rltb_iff in E. destruct (IH y) as (Hin & Hle & Hall).
      split; [| split].
      * destruct Hin as [-> | Hin]; auto.
      * lra.
      * intros x [<- | Hx]; [exact Hle | exact (Hall x Hx)].
    + apply Rltb_iff_false in E. destruct (IH d) as (Hin & Hle & Hall).
      split; [| split].
      * destruct Hin as [Hd | Hin]; auto.
      * exact Hle.
      * intros x [<- | Hx]; [lra | exact (Hall x Hx)].
Qed.

Lemma list_index_In x l :
  In x l -> (list_index x l < List.length l)%nat /\ nth (list_index x l) l 0 = x.
Proof.
  induction l as [| y rest IH]; intros H; [destruct H |]. simpl.
  unfold Reqb. destruct (Req_dec_T y x) as [-> | Hne].
  - split; [lia | reflexivity].
  - destruct H as [-> | H]; [congruence |]. destruct (IH H). split; [lia | assumption].
Qed.

(** The index [distances.index(min(distances))] of a non-empty list. *)
Lemma index_of_min x rest :
  (list_index (list_min x (x :: rest)) (x :: rest) < List.length (x :: rest))%nat
  /\ forall d, In d (x :: rest) ->
       nth (list_index (list_min x (x :: rest)) (x :: rest)) (x :: rest) 0 <= d.
Proof.
  destruct (list_min_spec (x :: rest) x) as (Hin & _ & Hall).
  assert (Hmem : In (list_min x (x :: rest)) (x :: rest)).
  { destruct Hin as [E | Hin]; [rewrite E; left; reflexivity | exact Hin]. }
  destruct (list_index_In _ _ Hmem) as [Hlt Hnth].
  split; [exact Hlt |]. intros d Hd. rewrite Hnth. apply Hall, Hd.
Qed.

Lemma face_normal_unit i : (i < 6)%nat -> norm (nth i face_normals vzero) = 1.
Proof.
  intros Hi. do 6 (destruct i as [| i]; [simpl;
    first [rewrite norm_axis_x | rewrite norm_axis_y | rewrite norm_axis_z];
    first [apply Rabs_pos_val; lra | rewrite Rabs_neg_val; lra] |]).
  lia.
Qed.

(** Whatever the branch, a hit comes with a unit normal. *)
Theorem check_sphere_box_hit_normal_unit sphere_pos sphere_radius box_pos box_half_size :
  fst (check_sphere_box sphere_pos sphere_radius box_pos box_half_size) = true ->
  exists n,
    check_sphere_box sphere_pos sphere_radius box_pos box_half_size = (true, Some n)
    /\ norm n = 1.
Proof.
  unfold check_sphere_box. rewrite vsum_vmul.
  destruct (Rltb _ (sphere_radius * sphere_radius)); [intros _ | discriminate].
  destruct (Rltb 0.0001 _) eqn:E.
  - apply Rltb_iff in E. eexists. split; [reflexivity |].
    apply norm_normalized. lra.
  - eexists. split; [reflexivity |]. cbv zeta. cbv [hd].
    fold face_normals. apply face_normal_unit.
    match goal with
    | |- (list_index (list_min ?x (?x :: ?rest)) _ < _)%nat =>
        exact (proj1 (index_of_min x rest))
    end.
Qed.

(** The ball of the scene against the unit box at the origin. *)
Lemma check_sphere_box_hit_normal_unit_witness :
  exists n,
    check_sphere_box (mkV3 1.5 0 0) 1 (mkV3 0 0 0) (mkV3 1 1 1) = (true, Some n)
    /\ norm n = 1.
Proof.
  apply (check_sphere_box_hit_normal_unit (mkV3 1.5 0 0) 1 (mkV3 0 0 0) (mkV3 1 1 1)).
  rewrite Manager.check_sphere_box_scene. reflexivity.
Defined.

Lemma clamp_inside lo s hi : lo <= s <= hi -> Rmax lo (Rmin s hi) = s.
Proof. intros H. unfold Rmax, Rmin. repeat destruct (Rle_dec _ _); lra. Qed.

(** A sphere of non-zero radius whose center lies in the box is always a
    hit; the normal is the normal of a face nearest to the center, the first
    such face in the order left, right, bottom, top, back, front. *)
Theorem check_sphere_box_center_inside sphere_pos sphere_radius box_pos box_half_size :
  sphere_radius <> 0 ->
  vx box_pos - vx box_half_size <= vx sphere_pos <= vx box_pos + vx box_half_size ->
  vy box_pos - vy box_half_size <= vy sphere_pos <= vy box_pos + vy box_half_size ->
  vz box_pos - vz box_half_size <= vz sphere_pos <= vz box_pos + vz box_half_size ->
  exists i,
    (i < 6)%nat
    /\ check_sphere_box sphere_pos sphere_radius box_pos box_half_size
       = (true, Some (nth i face_normals vzero))
    /\ forall d, In d (face_distances sphere_pos box_pos box_half_size) ->
         nth i (face_distances sphere_pos box_pos box_half_size) 0 <= d.
Proof.
  intros Hr Hx Hy Hz. unfold check_sphere_box.
  rewrite !clamp_inside by assumption. rewrite vsum_vmul.
  replace (dot _ _) with 0 by (vec_simpl; ring).
  rewrite Rltb_true by nra. rewrite Rltb_false by lra.
  fold (face_distances sphere_pos box_pos box_half_size). fold face_normals.
  unfold face_distances at 1 2 3. cbv [hd].
  match goal with
  | |- context [list_index (list_min ?x (?x :: ?rest)) (?x :: ?rest)] =>
      destruct (index_of_min x rest) as [Hlt Hmin];
      exists (list_index (list_min x (x :: rest)) (x :: rest))
  end.
  split; [exact Hlt | split; [reflexivity | exact Hmin]].
Qed.

(** A ball centred 0.25 under the top face of the unit box. *)
Lemma check_sphere_box_center_inside_witness :
  exists i,
    (i < 6)%nat
    /\ check_sphere_box (mkV3 0 0.75 0) 1 vzero (mkV3 1 1 1)
       = (true, Some (nth i face_normals vzero))
    /\ forall d, In d (face_distances (mkV3 0 0.75 0) vzero (mkV3 1 1 1)) ->
         nth i (face_distances (mkV3 0 0.75 0) vzero (mkV3 1 1 1)) 0 <= d.
Proof.
  apply (check_sphere_box_center_inside (mkV3 0 0.75 0) 1 vzero (mkV3 1 1 1));
    cbv [vx vy vz vzero]; lra.
Defined.

End Detectors.

(** ** CollisionDetector.ray_cast: more on what a hit is *)

Module RayMore.
Import Collision.

Section RayRuns.
Variables ray_origin ray_direction : V3.

(** The states of two runs of the loop, the second with the larger
    [max_distance]: equal, or the first has found nothing yet. *)
Lemma ray_step_larger st st' obj :
  st = st' \/ (fst st = None /\ snd st <= snd st') ->
  ray_step ray_origin ray_direction st obj = ray_step ray_origin ray_direction st' obj
  \/ (fst (ray_step ray_origin ray_direction st obj) = None
      /\ snd (ray_step ray_origin ray_direction st obj)
         <= snd (ray_step ray_origin ray_direction st' obj)).
Proof.
  intros [-> | [Hn Hle]]; [left; reflexivity |].
  destruct st as [hit c], st' as [hit' c']. simpl in Hn, Hle. subst hit.
  unfold ray_step. rewrite !RayCast.object_hit_raw.
  destruct (raw_hit ray_origin ray_direction obj) as [[d n] |]; [| right; simpl; auto].
  destruct (Rltb d c) eqn:Ec.
  - apply Rltb_iff in Ec. rewrite (Rltb_true d c') by lra. cbv iota.
    rewrite (Rltb_true d c), (Rltb_true d c') by lra. left. reflexivity.
  - apply Rltb_iff_false in Ec. destruct (Rltb d c') eqn:Ec'; cbv iota.
    + rewrite Ec'. right. simpl. auto.
    + right. simpl. auto.
Qed.

Lemma ray_loop_larger objects : forall st st',
  st = st' \/ (fst st = None /\ snd st <= snd st') ->
  fold_left (ray_step ray_origin ray_direction) objects st
  = fold_left (ray_step ray_origin ray_direction) objects st'
  \/ fst (fold_left (ray_step ray_origin ray_direction) objects st) = None.
Proof.
  induction objects as [| obj rest IH]; intros st st' H; cbn [fold_left].
  - destruct H as [-> | [Hn _]]; auto.
  - apply IH. destruct (ray_step_larger st st' obj H) as [E | E]; auto.
Qed.

(** A hit found with some [max_distance] is the hit returned with any
    larger one: widening the range never replaces a hit. *)
Theorem ray_cast_hit_kept_with_larger_max_distance max_distance max_distance' objects h :
  max_distance <= max_distance' ->
  ray_cast ray_origin ray_direction max_distance objects = (true, Some h) ->
  ray_cast ray_origin ray_direction max_distance' objects = (true, Some h).
Proof.
  intros Hle. unfold ray_cast.
  destruct (ray_loop_larger objects (None, max_distance) (None, max_distance'))
    as [E | E]; [right; simpl; auto | |].
  - rewrite E. auto.
  - rewrite E. discriminate.
Qed.

End RayRuns.

Lemma ray_cast_hit_kept_with_larger_max_distance_witness :
  ray_cast vzero (mkV3 0 0 1) 10 [RaySphere (mkV3 0 0 3) 1]
  = (true, Some (mkHit (RaySphere (mkV3 0 0 3) 1) (3 - 1)
                       (vadd vzero (vscale (mkV3 0 0 1) (3 - 1)))
                       (vdiv (vsub (vadd vzero (vscale (mkV3 0 0 1) (3 - 1)))
                                   (mkV3 0 0 3)) 1))).
Proof.
  apply (ray_cast_hit_kept_with_larger_max_distance vzero (mkV3 0 0 1) 5 10); [lra |].
  apply (RayCast.ray_cast_sphere_ahead vzero (mkV3 0 0 1) 5 (mkV3 0 0 3) 1 3);
    try lra; [vec_simpl; lra | vec_eq].
Defined.

(** A hit on a sphere of positive radius, for a unit ray direction: the hit
    point lies on the sphere and the normal is a unit vector. *)
Theorem ray_cast_sphere_hit_on_surface ray_origin ray_direction max_distance objects
  h center radius :
  dot ray_direction ray_direction = 1 -> 0 < radius ->
  ray_cast ray_origin ray_direction max_distance objects = (true, Some h) ->
  hit_object h = RaySphere center radius ->
  norm (vsub (hit_point h) center) = radius /\ norm (hit_normal h) = 1.
Proof.
  intros Hunit Hr Hcast Hobj.
  pose proof (RayCast.ray_cast_closest ray_origin ray_direction max_distance objects) as H.
  unfold ray_cast in Hcast. injection Hcast as _ Hfst.
  unfold closest_so_far in H. rewrite Hfst in H.
  destruct H as (_ & _ & Hpt & _ & _ & _ & Hhit & _).
  rewrite Hobj, RayCast.object_hit_raw in Hhit. unfold raw_hit in Hhit. cbv zeta in Hhit.
  set (offset := vsub center ray_origin) in *.
  set (p := dot offset ray_direction) in *.
  destruct (Rltb p 0); [discriminate |].
  set (cpd := vsum (vmul _ _)) in *.
  destruct (Rltb (radius * radius) cpd) eqn:Ec; [discriminate |].
  apply Rltb_iff_false in Ec.
  set (hc := sqrt (radius * radius - cpd)) in *.
  destruct (Rltb (p - hc) max_distance); [| discriminate].
  injection Hhit as Hd Hn.
  assert (Hhc : hc * hc = radius * radius - cpd) by (apply sqrt_sqrt; lra).
  assert (Hcpd : cpd = dot ray_direction ray_direction * (p * p) - 2 * p * p
                       + dot offset offset).
  { unfold cpd, p, offset. vec_simpl. ring. }
  assert (Hw : dot (vsub (hit_point h) center) (vsub (hit_point h) center)
               = radius * radius).
  { rewrite Hpt, <- Hd.
    transitivity (dot ray_direction ray_direction * ((p - hc) * (p - hc))
                  - 2 * (p - hc) * p + dot offset offset).
    - unfold p, offset. vec_simpl. ring.
    - rewrite Hunit in *. nra. }
  assert (Hnorm : norm (vsub (hit_point h) center) = radius).
  { unfold norm. rewrite Hw. apply sqrt_square. lra. }
  split; [exact Hnorm |].
  rewrite <- Hn, Hd, <- Hpt, norm_vdiv, Hnorm, Rabs_pos_val by lra.
  field. lra.
Qed.

Lemma ray_cast_sphere_hit_on_surface_witness :
  exists h,
    ray_cast vzero (mkV3 0 0 1) 10 [RaySphere (mkV3 0 0 3) 1] = (true, Some h)
    /\ norm (vsub (hit_point h) (mkV3 0 0 3)) = 1 /\ norm (hit_normal h) = 1.
Proof.
  assert (Hu : dot (mkV3 0 0 1) (mkV3 0 0 1) = 1) by (vec_simpl; lra).
  destruct (RayCast.ray_cast_sphere_ahead vzero (mkV3 0 0 1) 10 (mkV3 0 0 3) 1 3)
    as [Hhit _]; [exact Hu | lra | lra | vec_eq |].
  eexists. split; [apply Hhit; lra |].
  apply (ray_cast_sphere_hit_on_surface vzero (mkV3 0 0 1) 10
           [RaySphere (mkV3 0 0 3) 1] _ (mkV3 0 0 3) 1);
    [exact Hu | lra | apply Hhit; lra | reflexivity].
Defined.

(** The sign recorded by the slab loop stays 1 or -1. *)
Lemma slab_axis_sign ray_origin ray_direction min_bounds max_bounds s i s' :
  slab_axis ray_origin ray_direction min_bounds max_bounds s i = Some s' ->
  hit_normal_sign s = 1 \/ hit_normal_sign s = -1 ->
  hit_normal_sign s' = 1 \/ hit_normal_sign s' = -1.
Proof.
  unfold slab_axis. destruct (Rltb (Rabs _) 1e-6).
  - destruct (_ || _); [discriminate |]. intros E. injection E as <-. auto.
  - destruct (Rltb _ _); cbv zeta iota beta;
      destruct (ext_ltb (t_min s) _); cbn [t_min t_max hit_normal_axis hit_normal_sign];
      destruct (ext_ltb _ _); try discriminate;
      intros E; injection E as <-; cbn [hit_normal_sign]; intros H;
      first [exact H | left; lra | right; lra].
Qed.

Lemma slab_loop_sign ray_origin ray_direction min_bounds max_bounds axes : forall s s',
  slab_loop ray_origin ray_direction min_bounds max_bounds s axes = Some s' ->
  hit_normal_sign s = 1 \/ hit_normal_sign s = -1 ->
  hit_normal_sign s' = 1 \/ hit_normal_sign s' = -1.
Proof.
  induction axes as [| i rest IH]; intros s s'; simpl.
  - intros E. injection E as <-. auto.
  - destruct (slab_axis _ _ _ _ s i) as [s1 |] eqn:E1; [| discriminate].
    intros E H. apply (IH s1 s' E). apply (slab_axis_sign _ _ _ _ _ _ _ E1 H).
Qed.

Lemma vset_zero_unit i x :
  x = 1 \/ x = -1 -> In (vset vzero i x) face_normals.
Proof.
  intros [-> | ->]; destruct i as [| [| i]]; simpl; auto 7.
Qed.

(** A hit on a box is at a strictly positive distance and its normal is one
    of the six face normals, whatever the ray direction. *)
Theorem ray_cast_box_hit_face_normal ray_origin ray_direction max_distance objects h
  box_pos box_half_size :
  ray_cast ray_origin ray_direction max_distance objects = (true, Some h) ->
  hit_object h = RayBox box_pos box_half_size ->
  0 < hit_distance h /\ In (hit_normal h) face_normals.
Proof.
  intros Hcast Hobj.
  pose proof (RayCast.ray_cast_closest ray_origin ray_direction max_distance objects) as H.
  unfold ray_cast in Hcast. injection Hcast as _ Hfst.
  unfold closest_so_far in H. rewrite Hfst in H.
  destruct H as (_ & _ & _ & _ & _ & _ & Hhit & _).
  rewrite Hobj, RayCast.object_hit_raw in Hhit. unfold raw_hit in Hhit. cbv zeta in Hhit.
  match type of Hhit with
  | context [slab_loop ?o ?d ?lo ?hi ?s0 ?axes] =>
      destruct (slab_loop o d lo hi s0 axes) as [s |] eqn:Es; [| discriminate];
      pose proof (slab_loop_sign o d lo hi axes s0 s Es (or_introl eq_refl)) as Hsign
  end.
  destruct (if ext_ltb (Fin 0) (t_min s) then t_min s else t_max s) as [| hd |];
    try discriminate.
  destruct (Rltb 0 hd) eqn:E0; [| discriminate]. apply Rltb_iff in E0.
  destruct (Rltb hd max_distance); [| discriminate].
  injection Hhit as <- <-. split; [exact E0 | apply vset_zero_unit, Hsign].
Qed.

Lemma ray_cast_box_hit_face_normal_witness :
  0 < 4 /\ In (mkV3 0 0 (-1)) face_normals.
Proof.
  apply (ray_cast_box_hit_face_normal vzero (mkV3 0 0 1) 10
           [RayBox (mkV3 0 0 5) (mkV3 1 1 1)]
           (mkHit (RayBox (mkV3 0 0 5) (mkV3 1 1 1)) 4
                  (vadd vzero (vscale (mkV3 0 0 1) 4)) (mkV3 0 0 (-1)))
           (mkV3 0 0 5) (mkV3 1 1 1)).
  - apply RayCast.ray_cast_box_ahead.
  - reflexivity.
Defined.

End RayMore.

(** ** CollisionResolver: restitution, energy, penetration *)

Module ResolverMore.
Import Collision.

Section Resolved.
Variables (pos1 velocity1 : V3) (mass1 radius1 : R).
Variables (pos2 velocity2 : V3) (mass2 radius2 : R) (restitution : R).
Hypothesis Hmass1 : 0 < mass1.
Hypothesis Hmass2 : 0 < mass2.

Let n : V3 := vdiv (vsub pos1 pos2) (norm (vsub pos1 pos2)).
Let van : R := dot (vsub velocity1 velocity2) n.
Let j : R := - (1 + restitution) * van / (1 / mass1 + 1 / mass2).

Lemma inverse_mass_sum_pos : 0 < 1 / mass1 + 1 / mass2.
Proof. apply Rplus_lt_0_compat; apply Rdiv_lt_0_compat; lra. Qed.

(** The branch that applies the impulse. *)
Lemma resolve_resolved :
  0.0001 <= norm (vsub pos1 pos2) -> van <= 0 ->
  resolve_sphere_collision pos1 velocity1 mass1 radius1 pos2 velocity2 mass2 radius2
    restitution
  = (vadd velocity1 (vscale n (j / mass1)), vsub velocity2 (vscale n (j / mass2))).
Proof.
  intros Hd Hv. unfold resolve_sphere_collision.
  rewrite Rltb_false by exact Hd. fold n. fold van.
  rewrite Rltb_false by exact Hv. reflexivity.
Qed.

Lemma resolve_unchanged :
  norm (vsub pos1 pos2) < 0.0001 \/ 0 < van ->
  resolve_sphere_collision pos1 velocity1 mass1 radius1 pos2 velocity2 mass2 radius2
    restitution
  = (velocity1, velocity2).
Proof.
  intros H. unfold resolve_sphere_collision.
  destruct (Rltb (norm (vsub pos1 pos2)) 0.0001) eqn:Ed; [reflexivity |].
  apply Rltb_iff_false in Ed. fold n. fold van.
  destruct H as [H | H]; [lra |]. rewrite Rltb_true by exact H. reflexivity.
Qed.

Lemma normal_unit : 0.0001 <= norm (vsub pos1 pos2) -> dot n n = 1.
Proof. intros H. apply dot_normalized, Resolver.norm_lower_bound, H. Qed.

Lemma relative_normal_velocity_after :
  0.0001 <= norm (vsub pos1 pos2) ->
  dot (vsub (vadd velocity1 (vscale n (j / mass1)))
            (vsub velocity2 (vscale n (j / mass2)))) n
  = - restitution * van.
Proof.
  intros Hd. pose proof (normal_unit Hd) as Hnn. pose proof inverse_mass_sum_pos as HS.
  rewrite !dot_vsub_l, dot_vadd_l, !dot_vscale_l, Hnn.
  assert (Hvan : van = dot velocity1 n - dot velocity2 n)
    by (unfold van; apply dot_vsub_l).
  assert (Hj : j / mass1 + j / mass2 = - (1 + restitution) * van)
    by (unfold j; field; lra).
  lra.
Qed.

End Resolved.

(** The coefficient of restitution is what the code makes it: for a pair
    that is resolved (centers at least 1e-4 apart, not separating), the
    relative velocity along the contact normal after the call is
    [-restitution] times the one before. *)
Theorem resolve_sphere_collision_restitution
  pos1 velocity1 mass1 radius1 pos2 velocity2 mass2 radius2 restitution :
  0 < mass1 -> 0 < mass2 ->
  0.0001 <= norm (vsub pos1 pos2) ->
  dot (vsub velocity1 velocity2) (vdiv (vsub pos1 pos2) (norm (vsub pos1 pos2))) <= 0 ->
  dot (vsub (fst (resolve_sphere_collision pos1 velocity1 mass1 radius1
                    pos2 velocity2 mass2 radius2 restitution))
            (snd (resolve_sphere_collision pos1 velocity1 mass1 radius1
                    pos2 velocity2 mass2 radius2 restitution)))
      (vdiv (vsub pos1 pos2) (norm (vsub pos1 pos2)))
  = - restitution
    * dot (vsub velocity1 velocity2) (vdiv (vsub pos1 pos2) (norm (vsub pos1 pos2))).
Proof.
  intros Hm1 Hm2 Hd Hv. rewrite resolve_resolved by assumption. cbn [fst snd].
  apply relative_normal_velocity_after; assumption.
Qed.

Lemma unit_x_normal : vdiv (vsub (mkV3 1 0 0) vzero) (norm (vsub (mkV3 1 0 0) vzero))
                      = mkV3 1 0 0.
Proof.
  replace (vsub (mkV3 1 0 0) vzero) with (mkV3 1 0 0) by vec_eq.
  rewrite norm_axis_x, Rabs_pos_val by lra. vec_eq.
Qed.

Lemma unit_x_distance : norm (vsub (mkV3 1 0 0) vzero) = 1.
Proof.
  replace (vsub (mkV3 1 0 0) vzero) with (mkV3 1 0 0) by vec_eq.
  rewrite norm_axis_x, Rabs_pos_val by lra. reflexivity.
Qed.

(** Two unit masses on the X axis, the first on the right moving left onto
    the second, restitution 0.5. *)
Lemma resolve_sphere_collision_restitution_witness :
  dot (vsub (fst (resolve_sphere_collision (mkV3 1 0 0) (mkV3 (-1) 0 0) 1 1
                    vzero vzero 1 1 0.5))
            (snd (resolve_sphere_collision (mkV3 1 0 0) (mkV3 (-1) 0 0) 1 1
                    vzero vzero 1 1 0.5)))
      (vdiv (vsub (mkV3 1 0 0) vzero) (norm (vsub (mkV3 1 0 0) vzero)))
  = - (0.5) * dot (vsub (mkV3 (-1) 0 0) vzero)
                (vdiv (vsub (mkV3 1 0 0) vzero) (norm (vsub (mkV3 1 0 0) vzero))).
Proof.
  apply (resolve_sphere_collision_restitution (mkV3 1 0 0) (mkV3 (-1) 0 0) 1 1
           vzero vzero 1 1 0.5); try lra.
  - rewrite unit_x_distance. lra.
  - rewrite unit_x_normal. vec_simpl. lra.
Defined.

(** Resolving an already resolved pair changes nothing: for a restitution
    that is not negative, a second call on the velocities returned by the
    first returns them again. *)
Theorem resolve_sphere_collision_idempotent
  pos1 velocity1 mass1 radius1 pos2 velocity2 mass2 radius2 restitution :
  0 < mass1 -> 0 < mass2 -> 0 <= restitution ->
  resolve_sphere_collision pos1
    (fst (resolve_sphere_collision pos1 velocity1 mass1 radius1
            pos2 velocity2 mass2 radius2 restitution)) mass1 radius1
    pos2
    (snd (resolve_sphere_collision pos1 velocity1 mass1 radius1
            pos2 velocity2 mass2 radius2 restitution)) mass2 radius2 restitution
  = resolve_sphere_collision pos1 velocity1 mass1 radius1
      pos2 velocity2 mass2 radius2 restitution.
Proof.
  intros Hm1 Hm2 He.
  set (n := vdiv (vsub pos1 pos2) (norm (vsub pos1 pos2))).
  set (van := dot (vsub velocity1 velocity2) n).
  destruct (Rlt_dec (norm (vsub pos1 pos2)) 0.0001) as [Hd | Hd].
  - rewrite (resolve_unchanged pos1 velocity1 mass1 radius1 pos2 velocity2 mass2 radius2
               restitution) by (left; exact Hd).
    cbn [fst snd]. apply resolve_unchanged. left. exact Hd.
  - destruct (Rlt_dec 0 van) as [Hv | Hv].
    + rewrite (resolve_unchanged pos1 velocity1 mass1 radius1 pos2 velocity2 mass2
                 radius2 restitution) by (right; exact Hv).
      cbn [fst snd]. apply resolve_unchanged. right. exact Hv.
    + assert (Hd' : 0.0001 <= norm (vsub pos1 pos2)) by lra.
      assert (Hv' : van <= 0) by lra.
      rewrite (resolve_resolved pos1 velocity1 mass1 radius1 pos2 velocity2 mass2 radius2
                 restitution Hd' Hv').
      cbn [fst snd].
      pose proof (relative_normal_velocity_after pos1 velocity1 mass1 pos2 velocity2
                    mass2 restitution Hm1 Hm2 Hd') as Hafter.
      fold n in Hafter. fold van in Hafter. fold n.
      set (v1' := vadd velocity1 _) in *. set (v2' := vsub velocity2 _) in *.
      destruct (Rlt_dec 0 (dot (vsub v1' v2') n)) as [Hpos | Hzero].
      * apply resolve_unchanged. right. exact Hpos.
      * assert (H0 : dot (vsub v1' v2') n = 0) by nra.
        rewrite (resolve_resolved pos1 v1' mass1 radius1 pos2 v2' mass2 radius2
                   restitution Hd') by (fold n; lra).
        fold n. rewrite H0.
        f_equal; apply V3_eq; cbv [vadd vsub vscale vx vy vz]; unfold Rdiv; ring.
Qed.

Lemma resolve_sphere_collision_idempotent_witness :
  resolve_sphere_collision (mkV3 1 0 0)
    (fst (resolve_sphere_collision (mkV3 1 0 0) (mkV3 (-1) 0 0) 1 1 vzero vzero 1 1 0.5))
    1 1 vzero
    (snd (resolve_sphere_collision (mkV3 1 0 0) (mkV3 (-1) 0 0) 1 1 vzero vzero 1 1 0.5))
    1 1 0.5
  = resolve_sphere_collision (mkV3 1 0 0) (mkV3 (-1) 0 0) 1 1 vzero vzero 1 1 0.5.
Proof.
  apply (resolve_sphere_collision_idempotent (mkV3 1 0 0) (mkV3 (-1) 0 0) 1 1
           vzero vzero 1 1 0.5); lra.
Defined.

Lemma dot_after_impulse v n k :
  dot (vadd v (vscale n k)) (vadd v (vscale n k))
  = dot v v + 2 * k * dot v n + k * k * dot n n.
Proof. unfold dot, vadd, vscale; simpl. ring. Qed.

Lemma dot_after_counter_impulse v n k :
  dot (vsub v (vscale n k)) (vsub v (vscale n k))
  = dot v v - 2 * k * dot v n + k * k * dot n n.
Proof. unfold dot, vsub, vscale; simpl. ring. Qed.

(** With restitution 1 the call conserves kinetic energy, as the docstring
    announces: [m1*|v1|^2 + m2*|v2|^2] is the same before and after. *)
Theorem resolve_sphere_collision_elastic_conserves_energy
  pos1 velocity1 mass1 radius1 pos2 velocity2 mass2 radius2 :
  0 < mass1 -> 0 < mass2 ->
  mass1 * dot (fst (resolve_sphere_collision pos1 velocity1 mass1 radius1
                      pos2 velocity2 mass2 radius2 1))
              (fst (resolve_sphere_collision pos1 velocity1 mass1 radius1
                      pos2 velocity2 mass2 radius2 1))
  + mass2 * dot (snd (resolve_sphere_collision pos1 velocity1 mass1 radius1
                        pos2 velocity2 mass2 radius2 1))
                (snd (resolve_sphere_collision pos1 velocity1 mass1 radius1
                        pos2 velocity2 mass2 radius2 1))
  = mass1 * dot velocity1 velocity1 + mass2 * dot velocity2 velocity2.
Proof.
  intros Hm1 Hm2.
  set (n := vdiv (vsub pos1 pos2) (norm (vsub pos1 pos2))).
  set (van := dot (vsub velocity1 velocity2) n).
  destruct (Rlt_dec (norm (vsub pos1 pos2)) 0.0001) as [Hd | Hd].
  { rewrite resolve_unchanged by (left; exact Hd). reflexivity. }
  destruct (Rlt_dec 0 van) as [Hv | Hv].
  { rewrite resolve_unchanged by (right; exact Hv). reflexivity. }
  assert (Hd' : 0.0001 <= norm (vsub pos1 pos2)) by lra.
  rewrite resolve_resolved by (fold n; fold van; lra). cbn [fst snd]. fold n. fold van.
  rewrite dot_after_impulse, dot_after_counter_impulse.
  assert (Hnn : dot n n = 1) by (apply normal_unit; exact Hd').
  rewrite Hnn.
  assert (Hvan : van = dot velocity1 n - dot velocity2 n)
    by (unfold van; apply dot_vsub_l).
  rewrite Hvan. field. lra.
Qed.

Lemma resolve_sphere_collision_elastic_conserves_energy_witness :
  1 * dot (fst (resolve_sphere_collision (mkV3 1 0 0) (mkV3 (-1) 0 0) 1 1
                  vzero vzero 1 1 1))
          (fst (resolve_sphere_collision (mkV3 1 0 0) (mkV3 (-1) 0 0) 1 1
                  vzero vzero 1 1 1))
  + 1 * dot (snd (resolve_sphere_collision (mkV3 1 0 0) (mkV3 (-1) 0 0) 1 1
                    vzero vzero 1 1 1))
            (snd (resolve_sphere_collision (mkV3 1 0 0) (mkV3 (-1) 0 0) 1 1
                    vzero vzero 1 1 1))
  = 1 * dot (mkV3 (-1) 0 0) (mkV3 (-1) 0 0) + 1 * dot vzero vzero.
Proof.
  apply (resolve_sphere_collision_elastic_conserves_energy (mkV3 1 0 0) (mkV3 (-1) 0 0)
           1 1 vzero vzero 1 1); lra.
Defined.

(** *** resolve_penetration *)

(** For centers at least 1e-4 apart: two overlapping spheres come out exactly
    touching (centers [radius1 + radius2] apart), two spheres that do not
    overlap are returned as they are, and in both cases the midpoint of the
    centers does not move. *)
Theorem resolve_penetration_separates pos1 radius1 pos2 radius2 :
  0.0001 <= norm (vsub pos1 pos2) ->
  (norm (vsub pos1 pos2) < radius1 + radius2 ->
   norm (vsub (fst (resolve_penetration pos1 radius1 pos2 radius2))
              (snd (resolve_penetration pos1 radius1 pos2 radius2)))
   = radius1 + radius2)
  /\ (radius1 + radius2 <= norm (vsub pos1 pos2) ->
      resolve_penetration pos1 radius1 pos2 radius2 = (pos1, pos2))
  /\ vadd (fst (resolve_penetration pos1 radius1 pos2 radius2))
          (snd (resolve_penetration pos1 radius1 pos2 radius2))
     = vadd pos1 pos2.
Proof.
  intros Hd. unfold resolve_penetration. rewrite Rltb_false by exact Hd.
  set (dist := norm (vsub pos1 pos2)) in *.
  destruct (Rleb (radius1 + radius2 - dist) 0) eqn:E.
  - apply Rleb_iff in E. cbn [fst snd]. split; [intros; lra | split; reflexivity].
  - apply Rleb_iff_false in E. cbn [fst snd]. split; [| split].
    + intros _.
      replace (vsub _ _) with (vscale (vsub pos1 pos2) ((radius1 + radius2) / dist))
        by (apply V3_eq; vec_simpl; field; lra).
      rewrite norm_vscale. fold dist. rewrite Rabs_pos_val.
      * field. lra.
      * apply Rlt_le, Rdiv_lt_0_compat; lra.
    + intros H. lra.
    + apply V3_eq; vec_simpl; ring.
Qed.

(** Two unit spheres 1.5 apart on the X axis. *)
Lemma resolve_penetration_separates_witness :
  norm (vsub (fst (resolve_penetration (mkV3 1.5 0 0) 1 vzero 1))
             (snd (resolve_penetration (mkV3 1.5 0 0) 1 vzero 1))) = 1 + 1.
Proof.
  assert (Hn : norm (vsub (mkV3 1.5 0 0) vzero) = 1.5).
  { replace (vsub (mkV3 1.5 0 0) vzero) with (mkV3 1.5 0 0) by vec_eq.
    rewrite norm_axis_x. apply Rabs_pos_val. lra. }
  apply (resolve_penetration_separates (mkV3 1.5 0 0) 1 vzero 1); rewrite Hn; lra.
Defined.

(** The fallback for coincident centers (less than 1e-4 apart) takes the
    distance to be 1: spheres whose radii sum to at most 1 are left where
    they are, still overlapping; larger ones are pushed apart along X by
    [(radius1 + radius2 - 1) / 2] each. *)
Theorem resolve_penetration_coincident_centers pos1 radius1 pos2 radius2 :
  norm (vsub pos1 pos2) < 0.0001 ->
  (radius1 + radius2 <= 1 ->
   resolve_penetration pos1 radius1 pos2 radius2 = (pos1, pos2))
  /\ (1 < radius1 + radius2 ->
      resolve_penetration pos1 radius1 pos2 radius2
      = (vadd pos1 (mkV3 ((radius1 + radius2 - 1) / 2) 0 0),
         vsub pos2 (mkV3 ((radius1 + radius2 - 1) / 2) 0 0))).
Proof.
  intros Hd. unfold resolve_penetration. rewrite Rltb_true by exact Hd. split; intros H.
  - rewrite Rleb_true by lra. reflexivity.
  - rewrite Rleb_false by lra. f_equal; apply V3_eq; vec_simpl; lra.
Qed.

(** Two spheres of radius 0.5 at the same place stay there. *)
Lemma resolve_penetration_coincident_centers_witness :
  resolve_penetration vzero 0.5 vzero 0.5 = (vzero, vzero).
Proof.
  apply (resolve_penetration_coincident_centers vzero 0.5 vzero 0.5).
  - replace (vsub vzero vzero) with vzero by vec_eq.
    rewrite MotionFacts.norm_vzero. lra.
  - lra.
Defined.

End ResolverMore.

(** ** gravity.py: GravitySystem *)

Module GravityMore.
Import Gravity.

Lemma mem_ref_In r l : mem_ref r l = true <-> In r l.
Proof.
  unfold mem_ref. rewrite existsb_exists. split.
  - intros [x [Hx E]]. apply Nat.eqb_eq in E. subst. exact Hx.
  - intros H. exists r. split; [exact H | apply Nat.eqb_refl].
Qed.

Lemma mem_ref_not_In r l : mem_ref r l = false <-> ~ In r l.
Proof.
  rewrite <- mem_ref_In. destruct (mem_ref r l); split; intros; congruence.
Qed.

Lemma list_remove_In r l y :
  In y (list_remove r l) -> In y l.
Proof.
  induction l as [| x rest IH]; simpl; [auto |].
  destruct (Nat.eqb r x); simpl; intuition.
Qed.

Lemma list_remove_NoDup r l : NoDup l -> NoDup (list_remove r l).
Proof.
  induction 1 as [| x rest Hx Hnd IH]; simpl; [constructor |].
  destruct (Nat.eqb r x); [exact Hnd |].
  constructor; [| exact IH]. intros H. apply Hx, (list_remove_In r rest x H).
Qed.

Lemma list_remove_spec r l y :
  NoDup l -> (In y (list_remove r l) <-> In y l /\ y <> r).
Proof.
  induction 1 as [| x rest Hx Hnd IH]; simpl; [tauto |].
  destruct (Nat.eqb r x) eqn:E.
  - apply Nat.eqb_eq in E. subst x. split.
    + intros H. split; [auto |]. intros ->. contradiction.
    + intros [[H | H] Hne]; [congruence | exact H].
  - apply Nat.eqb_neq in E. simpl. rewrite IH. split.
    + intros [-> | [H Hne]]; [split; [auto | congruence] | auto].
    + intros [[-> | H] Hne]; auto.
Qed.

Lemma run_op_well_formed w op : well_formed w -> well_formed (run_op w op).
Proof.
  intros [Hv Hnd]. destruct op as [o | o | c | d | | c]; simpl;
    try (split; [reflexivity | exact Hnd]).
  - unfold register_object. destruct (mem_ref o (affected_objects w)) eqn:E; simpl.
    + split; assumption.
    + split; [exact Hv |]. apply mem_ref_not_In in E.
      apply NoDup_app; [exact Hnd | repeat constructor; intros [] |].
      intros x Hx [<- | []]. contradiction.
  - unfold unregister_object. destruct (mem_ref o (affected_objects w)); simpl.
    + split; [exact Hv | apply list_remove_NoDup, Hnd].
    + split; assumption.
Qed.

(** Whatever sequence of registrations, unregistrations and gravity settings
    follows [__init__], the stored [gravity_vector] is the direction times
    the constant and no object is registered twice. *)
Theorem gravity_system_invariant gravity_constant0 gravity_direction0 ops :
  gravity_vector (fold_left run_op ops (GravityWorld_init gravity_constant0 gravity_direction0))
  = np_scale
      (gravity_constant (core (fold_left run_op ops
                                 (GravityWorld_init gravity_constant0 gravity_direction0))))
      (gravity_direction (core (fold_left run_op ops
                                  (GravityWorld_init gravity_constant0 gravity_direction0))))
  /\ NoDup (affected_objects (fold_left run_op ops
                                (GravityWorld_init gravity_constant0 gravity_direction0))).
Proof.
  assert (H : forall ops w, well_formed w -> well_formed (fold_left run_op ops w)).
  { clear. induction ops as [| op rest IH]; intros w Hw; simpl; [exact Hw |].
    apply IH, run_op_well_formed, Hw. }
  apply (H ops). split; [reflexivity | constructor].
Qed.

(** On a list without repetition, registering adds exactly the object and
    unregistering removes exactly the object. *)
Theorem register_unregister_membership w game_object y :
  NoDup (affected_objects w) ->
  (In y (affected_objects (register_object w game_object))
   <-> y = game_object \/ In y (affected_objects w))
  /\ (In y (affected_objects (unregister_object w game_object))
      <-> In y (affected_objects w) /\ y <> game_object).
Proof.
  intros Hnd. split.
  - unfold register_object. destruct (mem_ref game_object (affected_objects w)) eqn:E; simpl.
    + apply mem_ref_In in E. split; [auto | intros [-> | H]; assumption].
    + rewrite in_app_iff. simpl. split.
      * intros [H | [H | []]]; auto.
      * intros [-> | H]; auto.
  - unfold unregister_object. destruct (mem_ref game_object (affected_objects w)) eqn:E; simpl.
    + apply list_remove_spec, Hnd.
    + apply mem_ref_not_In in E. split.
      * intros H. split; [exact H | intros ->; contradiction].
      * intros [H _]. exact H.
Qed.

Lemma register_unregister_membership_witness :
  (In 7%nat (affected_objects
               (register_object (GravityWorld_init 9.81 (mkV3 0 (-1) 0)) 7%nat))
   <-> 7%nat = 7%nat \/ In 7%nat (affected_objects (GravityWorld_init 9.81 (mkV3 0 (-1) 0))))
  /\ (In 7%nat (affected_objects
                  (unregister_object (GravityWorld_init 9.81 (mkV3 0 (-1) 0)) 7%nat))
      <-> In 7%nat (affected_objects (GravityWorld_init 9.81 (mkV3 0 (-1) 0)))
          /\ 7%nat <> 7%nat).
Proof.
  apply (register_unregister_membership (GravityWorld_init 9.81 (mkV3 0 (-1) 0)) 7%nat 7%nat).
  simpl. constructor.
Defined.

Lemma object_at_set_other st : forall r r' o,
  r' <> r -> object_at (object_set st r o) r' = object_at st r'.
Proof.
  induction st as [| x rest IH]; intros r r' o Hne; [reflexivity |].
  destruct r as [| r]; destruct r' as [| r']; simpl; try reflexivity; try congruence.
  apply IH. congruence.
Qed.

Lemma apply_gravity_no_object w delta_time :
  apply_gravity w no_object delta_time = no_object.
Proof. reflexivity. Qed.

(** Writing back what [apply_gravity] returns for the object at [r]. *)
Lemma object_at_set_applied w delta_time st : forall r,
  object_at (object_set st r (apply_gravity w (object_at st r) delta_time)) r
  = apply_gravity w (object_at st r) delta_time.
Proof.
  induction st as [| x rest IH]; intros r.
  - destruct r; reflexivity.
  - destruct r as [| r]; [reflexivity | apply IH].
Qed.

Lemma update_loop w delta_time refs : forall st r,
  NoDup refs ->
  object_at (fold_left (fun st obj =>
               object_set st obj (apply_gravity w (object_at st obj) delta_time))
             refs st) r
  = if mem_ref r refs then apply_gravity w (object_at st r) delta_time
    else object_at st r.
Proof.
  induction refs as [| x rest IH]; intros st r Hnd; [reflexivity |].
  inversion Hnd as [| ? ? Hx Hrest]; subst. cbn [fold_left]. rewrite IH by exact Hrest.
  unfold mem_ref at 2. cbn [existsb]. fold (mem_ref r rest).
  destruct (Nat.eqb r x) eqn:E.
  - apply Nat.eqb_eq in E. subst x.
    replace (mem_ref r rest) with false by (symmetry; apply mem_ref_not_In, Hx).
    cbn [orb]. apply object_at_set_applied.
  - apply Nat.eqb_neq in E. cbn [orb]. rewrite object_at_set_other by exact E.
    reflexivity.
Qed.

(** [update] applies gravity exactly once to every registered object and
    leaves every other object alone, provided no object is registered twice
    (which [register_object] guarantees). *)
Theorem update_applies_gravity_once w st delta_time r :
  NoDup (affected_objects w) ->
  object_at (update w st delta_time) r
  = if mem_ref r (affected_objects w)
    then apply_gravity w (object_at st r) delta_time
    else object_at st r.
Proof. intros Hnd. unfold update. apply update_loop, Hnd. Qed.

Lemma update_applies_gravity_once_witness :
  object_at (update (register_object (GravityWorld_init 9.81 (mkV3 0 (-1) 0)) 0%nat)
               [mkObject None (Some (Finite vzero)) (Some 1)] 1) 0%nat
  = if mem_ref 0%nat (affected_objects
                        (register_object (GravityWorld_init 9.81 (mkV3 0 (-1) 0)) 0%nat))
    then apply_gravity (register_object (GravityWorld_init 9.81 (mkV3 0 (-1) 0)) 0%nat)
           (object_at [mkObject None (Some (Finite vzero)) (Some 1)] 0%nat) 1
    else object_at [mkObject None (Some (Finite vzero)) (Some 1)] 0%nat.
Proof.
  apply (update_applies_gravity_once
           (register_object (GravityWorld_init 9.81 (mkV3 0 (-1) 0)) 0%nat)).
  simpl. repeat constructor. intros [].
Defined.

Lemma object_set_same st : forall r, object_set st r (object_at st r) = st.
Proof.
  induction st as [| x rest IH]; intros r; [destruct r; reflexivity |].
  destruct r as [| r]; simpl; [reflexivity |]. f_equal. apply IH.
Qed.

Lemma apply_gravity_disabled w d delta_time obj :
  gravity_direction (core w) = Finite d ->
  apply_gravity (disable_gravity w) obj delta_time = obj.
Proof.
  intros Hd. unfold apply_gravity, disable_gravity, set_gravity_strength.
  cbn [gravity_vector core gravity_constant gravity_direction]. rewrite Hd.
  destruct obj as [p [[v |] |] [m |]]; cbn; try reflexivity.
  do 3 f_equal. apply V3_eq; cbv [vx vy vz vadd vscale]; ring.
Qed.

(** While gravity is disabled (and the direction is a finite vector),
    [update] changes no object, registered or not. *)
Theorem update_with_gravity_disabled_is_identity w d st delta_time :
  gravity_direction (core w) = Finite d ->
  update (disable_gravity w) st delta_time = st.
Proof.
  intros Hd. unfold update.
  change (affected_objects (disable_gravity w)) with (affected_objects w).
  generalize (affected_objects w) as refs. intros refs. revert st.
  induction refs as [| x rest IH]; intros st; cbn [fold_left]; [reflexivity |].
  rewrite (apply_gravity_disabled w d) by exact Hd.
  rewrite object_set_same. apply IH.
Qed.

Lemma update_with_gravity_disabled_is_identity_witness :
  update (disable_gravity (register_object (GravityWorld_init 9.81 (mkV3 0 1 0)) 0%nat))
         [mkObject None (Some (Finite vzero)) (Some 1)] 1
  = [mkObject None (Some (Finite vzero)) (Some 1)].
Proof.
  apply (update_with_gravity_disabled_is_identity
           (register_object (GravityWorld_init 9.81 (mkV3 0 1 0)) 0%nat)
           (vdiv (mkV3 0 1 0) 1)).
  apply GravityFacts.np_normalize_unit_y.
Defined.

(** *** apply_custom_gravity *)

Lemma attraction_bound A nd d m :
  0 <= A -> 0 <= nd <= d -> 0 < m <= d ->
  A / (d * d) * (nd / d) <= A / (m * m).
Proof.
  intros HA [Hnd0 Hnd] [Hm Hmd].
  assert (Hd : 0 < d) by lra.
  assert (H1 : nd / d <= 1).
  { apply (Rmult_le_reg_r d); [exact Hd |]. unfold Rdiv.
    rewrite Rmult_assoc, Rinv_l by lra. lra. }
  assert (H0 : 0 <= nd / d) by (apply Rdiv_nonneg; lra).
  assert (H2 : 0 <= A / (d * d)) by (apply Rdiv_nonneg; nra).
  assert (H3 : A / (d * d) <= A / (m * m)).
  { unfold Rdiv. apply Rmult_le_compat_l; [exact HA |].
    apply Rinv_le_contravar; nra. }
  nra.
Qed.

(** With a positive [min_distance] the attraction is well defined, does not
    depend on the mass of the attracted object, and changes the velocity by
    at most [G * attractor_mass * dt / min_distance^2] in one call, however
    close the attractor is. *)
Theorem apply_custom_gravity_bounded position velocity mass attractor_position
  attractor_mass delta_time min_distance gravity_constant :
  mass <> 0 -> 0 < min_distance ->
  0 <= gravity_constant -> 0 <= attractor_mass -> 0 <= delta_time ->
  exists velocity',
    apply_custom_gravity (mkObject (Some position) (Some (Finite velocity)) (Some mass))
      attractor_position attractor_mass delta_time min_distance gravity_constant
    = Some (mkObject (Some position) (Some (Finite velocity')) (Some mass))
    /\ velocity'
       = vadd velocity
           (vscale
              (vscale (vdiv (vsub attractor_position position)
                            (Rmax (norm (vsub attractor_position position)) min_distance))
                      (gravity_constant * attractor_mass
                       / (Rmax (norm (vsub attractor_position position)) min_distance
                          * Rmax (norm (vsub attractor_position position)) min_distance)))
              delta_time)
    /\ norm (vsub velocity' velocity)
       <= gravity_constant * attractor_mass * delta_time / (min_distance * min_distance).
Proof.
  intros Hm Hmin HG HM Hdt.
  set (dir := vsub attractor_position position).
  set (d := Rmax (norm dir) min_distance).
  assert (Hd : 0 < d /\ min_distance <= d /\ norm dir <= d).
  { unfold d. pose proof (Rmax_l (norm dir) min_distance).
    pose proof (Rmax_r (norm dir) min_distance). lra. }
  destruct Hd as (Hd & Hmd & Hnd).
  eexists. split; [| split; [reflexivity |]].
  - unfold apply_custom_gravity. cbn [obj_position obj_velocity obj_mass].
    fold dir. fold d. rewrite Rltb_true by exact Hd.
    rewrite Reqb_false by nra. rewrite Reqb_false by exact Hm.
    cbn [np_add]. do 4 f_equal. apply V3_eq; vec_simpl; field; lra.
  - replace (vsub _ velocity)
      with (vscale (vdiv dir d) (gravity_constant * attractor_mass / (d * d) * delta_time))
      by (apply V3_eq; vec_simpl; field; lra).
    rewrite norm_vscale, norm_vdiv.
    assert (Hk : 0 <= gravity_constant * attractor_mass / (d * d) * delta_time).
    { apply Rmult_le_pos; [apply Rdiv_nonneg; nra | exact Hdt]. }
    rewrite (Rabs_pos_val _ Hk), (Rabs_pos_val d) by lra.
    pose proof (attraction_bound (gravity_constant * attractor_mass * delta_time)
                  (norm dir) d min_distance) as Hb.
    assert (HA : 0 <= gravity_constant * attractor_mass * delta_time)
      by (apply Rmult_le_pos; [apply Rmult_le_pos |]; assumption).
    specialize (Hb HA (conj (norm_nonneg dir) Hnd) (conj Hmin Hmd)).
    replace (gravity_constant * attractor_mass / (d * d) * delta_time * (norm dir / d))
      with (gravity_constant * attractor_mass * delta_time / (d * d) * (norm dir / d))
      by (field; lra).
    exact Hb.
Qed.

(** An object at the very place of the attractor, [min_distance] 1. *)
Lemma apply_custom_gravity_bounded_witness :
  exists velocity',
    apply_custom_gravity (mkObject (Some vzero) (Some (Finite vzero)) (Some 2))
      vzero 5 1 1 1
    = Some (mkObject (Some vzero) (Some (Finite velocity')) (Some 2))
    /\ norm (vsub velocity' vzero) <= 1 * 5 * 1 / (1 * 1).
Proof.
  destruct (apply_custom_gravity_bounded vzero vzero 2 vzero 5 1 1 1)
    as (v' & Hv & _ & Hb); try lra.
  exists v'. split; assumption.
Defined.

(** *** GravityZone *)

Lemma influence_range z object_position :
  0 < zone_radius z ->
  0 <= get_influence_factor z object_position <= 1.
Proof.
  intros Hr. unfold get_influence_factor, is_in_zone.
  pose proof (norm_nonneg (vsub object_position (zone_position z))) as Hn.
  destruct (Rleb _ (zone_radius z)) eqn:E; cbn [negb]; [| lra].
  apply Rleb_iff in E.
  pose proof (Rdiv_le_one _ _ Hr E). pose proof (Rdiv_nonneg _ _ Hn Hr). lra.
Qed.

(** For a zone of positive radius the influence factor lies between 0 and 1;
    it is 0 outside the zone and 1 at its center. *)
Theorem get_influence_factor_range z object_position :
  0 < zone_radius z ->
  0 <= get_influence_factor z object_position <= 1
  /\ (zone_radius z < norm (vsub object_position (zone_position z)) ->
      get_influence_factor z object_position = 0)
  /\ get_influence_factor z (zone_position z) = 1.
Proof.
  intros Hr. split; [apply influence_range, Hr | split].
  - intros H. unfold get_influence_factor, is_in_zone.
    rewrite Rleb_false by exact H. reflexivity.
  - unfold get_influence_factor, is_in_zone.
    replace (vsub (zone_position z) (zone_position z)) with vzero
      by (apply V3_eq; vec_simpl; ring).
    rewrite MotionFacts.norm_vzero. rewrite Rleb_true by lra. cbn [negb].
    unfold Rdiv. ring.
Qed.

Lemma get_influence_factor_range_witness :
  0 <= get_influence_factor upward_zone (mkV3 1 0 0) <= 1
  /\ (zone_radius upward_zone < norm (vsub (mkV3 1 0 0) (zone_position upward_zone)) ->
      get_influence_factor upward_zone (mkV3 1 0 0) = 0)
  /\ get_influence_factor upward_zone (zone_position upward_zone) = 1.
Proof.
  apply (get_influence_factor_range upward_zone (mkV3 1 0 0)). simpl. lra.
Defined.

Lemma dot_blend g z a t :
  dot (vadd (vscale g a) (vscale z t)) (vadd (vscale g a) (vscale z t))
  = a * a * dot g g + 2 * a * t * dot g z + t * t * dot z z.
Proof. unfold dot, vadd, vscale; simpl. ring. Qed.

(** The blend of directions is safe whenever the two directions are not
    opposite: for a unit global direction [g], a non-zero zone direction [d]
    with [g . d > -|d|], and an influence above a non-negative threshold,
    the direction returned is a finite unit vector and the constant is
    scaled by the zone's modifier. *)
Theorem modify_gravity_blend_unit_when_not_opposite
  z gravity_system object_position influence_threshold g d :
  is_enabled z = true -> 0 < zone_radius z ->
  zone_direction z = Some d -> 0 < dot d d ->
  gravity_direction gravity_system = Finite g -> dot g g = 1 ->
  - norm d < dot g d ->
  0 <= influence_threshold ->
  influence_threshold < get_influence_factor z object_position ->
  exists u,
    modify_gravity z gravity_system object_position influence_threshold
    = (gravity_constant gravity_system * gravity_modifier z, Finite u)
    /\ norm u = 1.
Proof.
  intros Hen Hr Hzd Hd Hg Hgg Hopp Hth Hinf.
  pose proof (influence_range z object_position Hr) as [_ Hle].
  set (t := get_influence_factor z object_position) in *.
  pose proof (norm_pos d Hd) as Hnd.
  set (zn := vdiv d (norm d)).
  assert (Hzz : dot zn zn = 1) by (apply dot_normalized, Hd).
  assert (Hgz : -1 < dot g zn).
  { unfold zn. rewrite dot_vdiv_r.
    apply (Rmult_lt_reg_r (norm d)); [exact Hnd |]. unfold Rdiv.
    rewrite Rmult_assoc, Rinv_l by lra. lra. }
  assert (Hb : vadd (vscale g (1 - t)) (vscale zn t) <> vzero).
  { intros E. pose proof (dot_blend g zn (1 - t) t) as Hdot.
    rewrite E, Hgg, Hzz in Hdot.
    replace (dot vzero vzero) with 0 in Hdot by (vec_simpl; ring).
    assert (Ht : 0 < t) by lra.
    assert (Hp : 0 <= (1 - t) * t * (dot g zn + 1)).
    { apply Rmult_le_pos; [apply Rmult_le_pos |]; lra. }
    destruct (Req_dec_T t 1) as [E1 | E1]; [rewrite E1 in Hdot; lra |].
    assert (Hp2 : 0 < (1 - t) * t * (dot g zn + 1)).
    { apply Rmult_lt_0_compat; [apply Rmult_lt_0_compat |]; lra. }
    pose proof (Rle_0_sqr (1 - 2 * t)) as Hsq. unfold Rsqr in Hsq.
    assert (Heq : (1 - t) * (1 - t) * 1 + 2 * (1 - t) * t * dot g zn + t * t * 1
                  = (1 - 2 * t) * (1 - 2 * t) + 2 * ((1 - t) * t * (dot g zn + 1)))
      by ring.
    rewrite Heq in Hdot. lra. }
  destruct (GravityFacts.np_normalize_finite _ Hb) as [u [Hu Hunit]].
  exists u. split; [| exact Hunit].
  unfold modify_gravity. rewrite Hen. cbn [negb]. fold t.
  rewrite Rleb_false by exact Hinf. rewrite Hzd, Hg.
  unfold np_normalize at 2, np_div.
  destruct (Req_dec_T (norm d) 0) as [E | _]; [lra |].
  fold zn. cbn [np_scale np_add]. rewrite Hu. reflexivity.
Qed.

(** The default system (direction -Y) and a zone of direction +X, half a
    radius from its center. *)
Lemma modify_gravity_blend_unit_when_not_opposite_witness :
  exists u,
    modify_gravity (mkGravityZone vzero 2 1 (Some (mkV3 1 0 0)) true) default_system
      (mkV3 1 0 0) default_influence_threshold
    = (gravity_constant default_system * 1, Finite u)
    /\ norm u = 1.
Proof.
  assert (Hn : norm (mkV3 1 0 0) = 1) by (rewrite norm_axis_x; apply Rabs_pos_val; lra).
  apply (modify_gravity_blend_unit_when_not_opposite
           (mkGravityZone vzero 2 1 (Some (mkV3 1 0 0)) true) default_system
           (mkV3 1 0 0) default_influence_threshold
           (vdiv (mkV3 0 (-1) 0) 1) (mkV3 1 0 0)).
  - reflexivity.
  - simpl. lra.
  - reflexivity.
  - vec_simpl. lra.
  - apply GravityFacts.np_normalize_unit_neg_y.
  - vec_simpl. lra.
  - rewrite Hn. vec_simpl. lra.
  - unfold default_influence_threshold. lra.
  - unfold get_influence_factor, is_in_zone. cbn [zone_position zone_radius].
    replace (vsub (mkV3 1 0 0) vzero) with (mkV3 1 0 0) by vec_eq.
    rewrite Hn. rewrite Rleb_true by lra. cbn [negb].
    unfold default_influence_threshold. lra.
Defined.

End GravityMore.

(** ** motion.py: the integrator's steps *)

Module MotionMore.
Import Motion.

Lemma norm_zero_vec : norm (mkV3 0 0 0) = 0.
Proof. apply MotionFacts.norm_vzero. Qed.

(** Scaling a vector by a factor between 0 and 1. *)
Lemma scaled_back v f : 0 <= f <= 1 -> norm (vscale v f) <= norm v.
Proof.
  intros [H0 H1]. rewrite norm_vscale, (Rabs_pos_val f H0).
  pose proof (norm_nonneg v). nra.
Qed.

Lemma factor_nonneg v f : 0 < dot v v -> ~ dot (vscale v f) v < 0 -> 0 <= f.
Proof.
  intros Hv Hdot. rewrite dot_vscale_l in Hdot.
  destruct (Rle_dec 0 f) as [H | H]; [exact H |]. exfalso. apply Hdot. nra.
Qed.

Lemma speed_above_threshold v : 0.001 < norm v -> 0 < dot v v.
Proof.
  intros H. rewrite <- norm_sq. apply Rmult_lt_0_compat; lra.
Qed.

(** *** apply_air_resistance *)

(** With a drag coefficient and a time step of the same sign, air resistance
    never speeds a body up and never turns its velocity around; what comes
    out is either the zero vector or a velocity of speed at least 0.001. *)
Theorem apply_air_resistance_slows_without_reversal self velocity delta_time :
  0 <= air_resistance self * delta_time ->
  norm (apply_air_resistance self velocity delta_time) <= norm velocity
  /\ 0 <= dot (apply_air_resistance self velocity delta_time) velocity
  /\ (apply_air_resistance self velocity delta_time = vzero
      \/ 0.001 <= norm (apply_air_resistance self velocity delta_time)).
Proof.
  intros Hk. unfold apply_air_resistance.
  assert (Hz : norm vzero <= norm velocity /\ 0 <= dot vzero velocity
               /\ (vzero = vzero \/ 0.001 <= norm vzero)).
  { rewrite MotionFacts.norm_vzero. split; [apply norm_nonneg |].
    split; [vec_simpl; lra | left; reflexivity]. }
  destruct (Rltb 0.001 (norm velocity)) eqn:Es; [| exact Hz].
  apply Rltb_iff in Es. pose proof (speed_above_threshold _ Es) as Hv.
  replace (vadd velocity (vscale (vscale velocity (- air_resistance self)) delta_time))
    with (vscale velocity (1 - air_resistance self * delta_time))
    by (apply V3_eq; vec_simpl; ring).
  destruct (Rltb (norm _) 0.001) eqn:En; [exact Hz |].
  destruct (Rltb (dot _ velocity) 0) eqn:Ed; [exact Hz |].
  cbn [orb]. apply Rltb_iff_false in En, Ed.
  assert (Hf : 0 <= 1 - air_resistance self * delta_time).
  { apply (factor_nonneg velocity); [exact Hv | lra]. }
  split; [apply scaled_back; lra | split; [exact Ed | right; exact En]].
Qed.

Lemma apply_air_resistance_slows_without_reversal_witness :
  norm (apply_air_resistance Motion_init (mkV3 0 (-9.81) 0) 1) <= norm (mkV3 0 (-9.81) 0)
  /\ 0 <= dot (apply_air_resistance Motion_init (mkV3 0 (-9.81) 0) 1) (mkV3 0 (-9.81) 0)
  /\ (apply_air_resistance Motion_init (mkV3 0 (-9.81) 0) 1 = vzero
      \/ 0.001 <= norm (apply_air_resistance Motion_init (mkV3 0 (-9.81) 0) 1)).
Proof.
  apply (apply_air_resistance_slows_without_reversal Motion_init (mkV3 0 (-9.81) 0) 1).
  simpl. lra.
Defined.

(** *** apply_ground_friction *)

(** Ground friction never touches the vertical component and does nothing
    to an airborne body; on the ground, with a friction coefficient and a
    time step of the same sign, the horizontal velocity never grows and
    never turns around. *)
Theorem apply_ground_friction_horizontal_only self velocity is_grounded delta_time :
  vy (apply_ground_friction self velocity is_grounded delta_time) = vy velocity
  /\ (is_grounded = false ->
      apply_ground_friction self velocity is_grounded delta_time = velocity)
  /\ (0 <= ground_friction self * delta_time ->
      norm (horizontal (apply_ground_friction self velocity is_grounded delta_time))
        <= norm (horizontal velocity)
      /\ 0 <= dot (horizontal (apply_ground_friction self velocity is_grounded delta_time))
                  (horizontal velocity)).
Proof.
  unfold apply_ground_friction. destruct is_grounded; cbn [negb].
  2: { split; [reflexivity | split; [reflexivity |]]. intros _.
       split; [lra |]. apply dot_self_nonneg. }
  fold (horizontal velocity). set (h := horizontal velocity).
  assert (Hz : norm (mkV3 0 0 0) <= norm h /\ 0 <= dot (mkV3 0 0 0) h).
  { rewrite norm_zero_vec. split; [apply norm_nonneg | vec_simpl; lra]. }
  destruct (Rltb 0.001 (norm h)) eqn:Es.
  - apply Rltb_iff in Es. pose proof (speed_above_threshold _ Es) as Hv.
    replace (vadd h (vscale (vscale (vscale (vdiv (vneg h) (norm h))
                                            (ground_friction self)) 9.81) delta_time))
      with (vscale h (1 - ground_friction self * 9.81 * delta_time / norm h))
      by (apply V3_eq; vec_simpl; field; lra).
    set (f := 1 - ground_friction self * 9.81 * delta_time / norm h).
    destruct (Rltb (norm (vscale h f)) 0.001 || Rltb (dot (vscale h f) h) 0) eqn:E.
    + split; [reflexivity | split; [discriminate |]]. intros _. exact Hz.
    + split; [reflexivity | split; [discriminate |]]. intros Hk.
      apply orb_false_iff in E. destruct E as [_ Ed]. apply Rltb_iff_false in Ed.
      assert (Hf0 : 0 <= f) by (apply (factor_nonneg h); [exact Hv | lra]).
      assert (Hf1 : f <= 1).
      { unfold f. assert (0 <= ground_friction self * 9.81 * delta_time / norm h).
        { apply Rdiv_nonneg; [nra | lra]. }
        lra. }
      assert (Hh : horizontal (mkV3 (vx (vscale h f)) (vy velocity) (vz (vscale h f)))
                   = vscale h f).
      { unfold h, horizontal. apply V3_eq; vec_simpl; ring. }
      rewrite Hh. split; [apply scaled_back; lra | exact Ed].
  - split; [reflexivity | split; [discriminate |]]. intros _. exact Hz.
Qed.

Lemma apply_ground_friction_horizontal_only_witness :
  norm (horizontal (apply_ground_friction Motion_init (mkV3 1 2 0) true 1))
    <= norm (horizontal (mkV3 1 2 0))
  /\ 0 <= dot (horizontal (apply_ground_friction Motion_init (mkV3 1 2 0) true 1))
              (horizontal (mkV3 1 2 0)).
Proof.
  apply (apply_ground_friction_horizontal_only Motion_init (mkV3 1 2 0) true 1).
  simpl. lra.
Defined.

(** *** process_object_motion *)

(** A grounded body at rest is a fixed point of the integrator, whatever the
    gravity, the friction coefficients and the time step. *)
Theorem process_object_motion_rest_is_fixed_point self obj delta_time :
  is_grounded obj = Some true -> velocity obj = vzero ->
  process_object_motion self obj delta_time = obj.
Proof.
  intros Hg Hv. destruct obj as [p v m g hp hc inp fw sp cr]. simpl in Hg, Hv. subst.
  unfold process_object_motion.
  cbv [with_velocity with_position velocity position is_grounded get mass has_physics
       has_controller input_direction forward_vector is_sprinting is_crouching].
  unfold apply_gravity. cbn [negb].
  unfold apply_air_resistance. rewrite MotionFacts.norm_vzero.
  rewrite (Rltb_false 0.001 0) by lra.
  unfold apply_ground_friction. cbn [negb]. cbv [vx vy vz vzero].
  rewrite norm_zero_vec. rewrite (Rltb_false 0.001 0) by lra.
  unfold update_position. f_equal. apply V3_eq; vec_simpl; ring.
Qed.

Lemma process_object_motion_rest_is_fixed_point_witness :
  process_object_motion Motion_init
    (mkBody (mkV3 1 2 3) vzero None (Some true) None None None None None None) 1
  = mkBody (mkV3 1 2 3) vzero None (Some true) None None None None None None.
Proof.
  apply (process_object_motion_rest_is_fixed_point Motion_init
           (mkBody (mkV3 1 2 3) vzero None (Some true) None None None None None None) 1);
    reflexivity.
Defined.

(** *** process_jump *)

(** A jump only takes off from the ground: a grounded body gains
    [jump_force / mass] of vertical velocity, keeps its horizontal velocity
    and is no longer grounded; a body that is not grounded (or has no
    [is_grounded] key) is returned as it is.  So a second jump right after a
    first one does nothing. *)
Theorem process_jump_needs_ground obj jump_force jump_force' :
  (get (is_grounded obj) false = true ->
   get (mass obj) 1 <> 0 ->
   process_jump obj jump_force
   = mkBody (position obj)
            (mkV3 (vx (velocity obj))
                  (vy (velocity obj) + jump_force / get (mass obj) 1)
                  (vz (velocity obj)))
            (mass obj) (Some false) (has_physics obj) (has_controller obj)
            (input_direction obj) (forward_vector obj)
            (is_sprinting obj) (is_crouching obj))
  /\ (get (is_grounded obj) false = false -> process_jump obj jump_force = obj)
  /\ process_jump (process_jump obj jump_force) jump_force' = process_jump obj jump_force.
Proof.
  unfold process_jump. destruct (get (is_grounded obj) false) eqn:E.
  - split; [| split; [discriminate | reflexivity]].
    intros _ Hm. unfold with_is_grounded, with_velocity, apply_impulse. cbn.
    f_equal. apply V3_eq; vec_simpl; unfold Rdiv; ring.
  - split; [discriminate | split; [reflexivity |]]. rewrite E. reflexivity.
Qed.

Lemma process_jump_needs_ground_witness :
  process_jump (mkBody vzero (mkV3 1 0 0) (Some 2) (Some true) None None None None None None) 6
  = mkBody vzero (mkV3 1 (0 + 6 / 2) 0) (Some 2) (Some false) None None None None None None
  /\ process_jump floating_body 6 = floating_body.
Proof.
  split.
  - apply (process_jump_needs_ground
             (mkBody vzero (mkV3 1 0 0) (Some 2) (Some true) None None None None None None)
             6 6); [reflexivity | simpl; lra].
  - destruct (process_jump_needs_ground floating_body 6 6) as (_ & Hair & _).
    apply Hair. reflexivity.
Defined.

(** *** apply_movement_input *)

(** Whatever the input, the controller only rewrites the horizontal
    velocity: the vertical velocity and every other field of the body come
    out as they went in. *)
Theorem apply_movement_input_changes_horizontal_velocity_only
  self obj input_direction delta_time is_sprinting is_crouching :
  apply_movement_input self obj input_direction delta_time is_sprinting is_crouching
  = with_velocity obj
      (mkV3 (vx (velocity (apply_movement_input self obj input_direction delta_time
                             is_sprinting is_crouching)))
            (vy (velocity obj))
            (vz (velocity (apply_movement_input self obj input_direction delta_time
                             is_sprinting is_crouching)))).
Proof.
  unfold apply_movement_input.
  destruct (Rltb 0.001 (norm input_direction)).
  - cbv zeta. unfold with_velocity at 1 2 3. cbn [velocity]. unfold with_velocity.
    f_equal.
  - destruct (Rltb 0.001 (norm _)).
    + cbv zeta. unfold with_velocity at 1 2 3. cbn [velocity]. unfold with_velocity.
      f_equal.
    + destruct obj as [p [x y z] m g hp hc inp fw sp cr]. reflexivity.
Qed.

(** With input and a non-negative acceleration limit (the controller's
    acceleration, scaled by the air control when airborne), the change of
    velocity in one tick is bounded by that limit times the time step. *)
Theorem apply_movement_input_acceleration_limited
  self obj input_direction delta_time is_sprinting is_crouching :
  0.001 < norm input_direction -> 0 < delta_time -> get (mass obj) 1 <> 0 ->
  0 <= acceleration self
       * (if negb (get (is_grounded obj) true) then air_control self else 1) ->
  norm (vsub (velocity (apply_movement_input self obj input_direction delta_time
                          is_sprinting is_crouching))
             (velocity obj))
  <= acceleration self
     * (if negb (get (is_grounded obj) true) then air_control self else 1)
     * delta_time.
Proof.
  intros Hin Hdt Hm Hlim. unfold apply_movement_input.
  rewrite Rltb_true by exact Hin. cbv zeta. cbn [velocity with_velocity].
  unfold apply_force.
  match goal with
  | |- context [Rltb ?lim (norm ?a)] => set (accv := a); set (limit := lim) in *
  end.
  set (m := get (mass obj) 1) in *.
  assert (Hy : vy accv = 0) by (unfold accv; vec_simpl; unfold Rdiv; ring).
  clearbody accv.
  assert (Hacc : forall acc, vy acc = 0 -> norm acc <= limit ->
            norm (vsub (vset (vadd (velocity obj)
                                   (vscale (vdiv (vscale acc m) m) delta_time))
                             1 (vy (velocity obj)))
                       (velocity obj)) <= limit * delta_time).
  { intros [ax ay az] Hay Hn. simpl in Hay. subst ay.
    replace (vsub _ (velocity obj)) with (vscale (mkV3 ax 0 az) delta_time)
      by (apply V3_eq; vec_simpl; field; exact Hm).
    rewrite norm_vscale, Rabs_pos_val by lra. nra. }
  destruct (Rltb limit (norm accv)) eqn:E.
  - apply Rltb_iff in E. apply Hacc.
    + destruct accv as [ax ay az]. simpl in Hy. subst ay. vec_simpl. ring.
    + rewrite norm_vscale. rewrite Rabs_pos_val by (apply Rdiv_nonneg; lra).
      assert (Hn : norm accv <> 0) by lra.
      right. field. exact Hn.
  - apply Rltb_iff_false in E. apply Hacc; assumption.
Qed.

(** A grounded body at rest given full forward input for 1/64 s. *)
Lemma apply_movement_input_acceleration_limited_witness :
  norm (vsub (velocity (apply_movement_input OmniMovement_init floating_body
                          (mkV3 0 0 1) 0.015625 false false))
             (velocity floating_body))
  <= acceleration OmniMovement_init
     * (if negb (get (is_grounded floating_body) true)
        then air_control OmniMovement_init else 1)
     * 0.015625.
Proof.
  apply (apply_movement_input_acceleration_limited OmniMovement_init floating_body
           (mkV3 0 0 1) 0.015625 false false).
  - rewrite norm_axis_z, Rabs_pos_val by lra. lra.
  - lra.
  - simpl. lra.
  - simpl. lra.
Defined.

(** *** set_movement_params *)

(** Whatever value is passed, the air control stored is between 0 and 1;
    with every argument left at [None] nothing changes. *)
Theorem set_movement_params_clamps_air_control self max_speed acceleration deceleration
  air_control strafe_multiplier backward_multiplier sprint_multiplier crouch_multiplier :
  0 <= Motion.air_control
         (set_movement_params self max_speed acceleration deceleration (Some air_control)
            strafe_multiplier backward_multiplier sprint_multiplier crouch_multiplier) <= 1
  /\ set_movement_params self None None None None None None None None = self.
Proof.
  split.
  - cbn. unfold Rmax, Rmin. repeat destruct (Rle_dec _ _); lra.
  - destruct self. reflexivity.
Qed.

(** *** calculate_move_direction *)

(** The direction returned is a unit vector as soon as the combined input
    has length above 0.001; below that the combination is returned as it is,
    not normalized. *)
Theorem calculate_move_direction_unit forward_vec right_vec input_direction :
  (0.001 < norm (vadd (vscale forward_vec (vz input_direction))
                      (vscale right_vec (vx input_direction))) ->
   norm (calculate_move_direction forward_vec right_vec input_direction) = 1)
  /\ (norm (vadd (vscale forward_vec (vz input_direction))
                 (vscale right_vec (vx input_direction))) <= 0.001 ->
      calculate_move_direction forward_vec right_vec input_direction
      = vadd (vscale forward_vec (vz input_direction))
             (vscale right_vec (vx input_direction))).
Proof.
  unfold calculate_move_direction. split; intros H.
  - rewrite Rltb_true by exact H. apply norm_normalized, speed_above_threshold, H.
  - rewrite Rltb_false by exact H. reflexivity.
Qed.

Lemma calculate_move_direction_unit_witness :
  norm (calculate_move_direction (mkV3 0 0 1) (mkV3 1 0 0) (mkV3 0 0 3)) = 1.
Proof.
  apply (calculate_move_direction_unit (mkV3 0 0 1) (mkV3 1 0 0) (mkV3 0 0 3)).
  replace (vadd _ _) with (mkV3 0 0 3) by vec_eq.
  rewrite norm_axis_z, Rabs_pos_val by lra. lra.
Defined.

End MotionMore.
